(** * Episode-number resolution and filename synthesis of [rename.py]

    A shallow embedding of the decision logic of [rename_show_files] and of
    [ask_ollama_for_anime_mapping], with the external services (the TMDb
    catalog, the Ollama subprocess, the file-system rename call) taken as
    explicit oracles.

    Strings are Rocq [string]s read as ASCII text: the character classes
    below classify the code points 0..127 the way Python's [re] and [str]
    do, and no code point above 127 is a digit, a letter or white space. *)

From Stdlib Require Import ZArith Lia Ascii.
From Stdlib Require String.
From stdpp Require Import base decidable numbers list gmap strings pretty.

Open Scope Z_scope.

(** ** Characters *)

Module Chars.

Definition code (c : ascii) : nat := nat_of_ascii c.

Definition between (lo hi : nat) (c : ascii) : bool :=
  Nat.leb lo (code c) && Nat.leb (code c) hi.

(** [0-9], which is what [\d] matches on ASCII text. *)
Definition is_digit (c : ascii) : bool := between 48 57 c.

Definition is_upper (c : ascii) : bool := between 65 90 c.

Definition is_lower (c : ascii) : bool := between 97 122 c.

(** [A-Za-z0-9]. *)
Definition is_alnum (c : ascii) : bool := is_upper c || is_lower c || is_digit c.

(** [\s] and [str.isspace]: tab, line feed, vertical tab, form feed,
    carriage return, the separators 0x1c..0x1f and the space. *)
Definition is_space (c : ascii) : bool :=
  between 9 13 c || between 28 31 c || Nat.eqb (code c) 32.

(** [\w]: letters, digits and the underscore. *)
Definition is_word (c : ascii) : bool := is_alnum c || Nat.eqb (code c) 95.

(** [str.lower] on one character. *)
Definition lower (c : ascii) : ascii :=
  if is_upper c then ascii_of_nat (code c + 32) else c.

Definition digit_value (c : ascii) : Z := Z.of_nat (code c) - 48.

End Chars.

(** ** Strings *)

Module Str.

Fixpoint filter (keep : ascii -> bool) (s : string) : string :=
  match s with
  | EmptyString => EmptyString
  | String c r => if keep c then String c (filter keep r) else filter keep r
  end.

Fixpoint forallb (p : ascii -> bool) (s : string) : bool :=
  match s with
  | EmptyString => true
  | String c r => p c && forallb p r
  end.

Fixpoint map (f : ascii -> ascii) (s : string) : string :=
  match s with
  | EmptyString => EmptyString
  | String c r => String (f c) (map f r)
  end.

(** [s[:n]] *)
Fixpoint take (n : nat) (s : string) : string :=
  match n, s with
  | S n', String c r => String c (take n' r)
  | _, _ => EmptyString
  end.

Fixpoint replicate (n : nat) (c : ascii) : string :=
  match n with
  | O => EmptyString
  | S n' => String c (replicate n' c)
  end.

(** [s.lstrip(chars)] for the class [p]. *)
Fixpoint lstrip (p : ascii -> bool) (s : string) : string :=
  match s with
  | EmptyString => EmptyString
  | String c r => if p c then lstrip p r else s
  end.

(** [s.rstrip(chars)] for the class [p]. *)
Fixpoint rstrip (p : ascii -> bool) (s : string) : string :=
  match s with
  | EmptyString => EmptyString
  | String c r =>
      match rstrip p r with
      | EmptyString => if p c then EmptyString else String c EmptyString
      | r' => String c r'
      end
  end.

(** [s.strip(chars)] for the class [p]. *)
Definition strip (p : ascii -> bool) (s : string) : string :=
  rstrip p (lstrip p s).

(** [s.lower()] *)
Definition lower (s : string) : string := map Chars.lower s.

(** Python truthiness of a [str]. *)
Definition nonempty (s : string) : bool :=
  match s with EmptyString => false | _ => true end.

(** [re.sub(r'\s+', '.', s)]: every maximal run of white space becomes one
    dot.  [in_run] says that the previous character was white space. *)
Fixpoint collapse_ws_go (in_run : bool) (s : string) : string :=
  match s with
  | EmptyString => EmptyString
  | String c r =>
      if Chars.is_space c
      then if in_run then collapse_ws_go true r
           else String "."%char (collapse_ws_go true r)
      else String c (collapse_ws_go false r)
  end.

Definition collapse_ws (s : string) : string := collapse_ws_go false s.

(** [re.sub(r'[^A-Za-z0-9\s]', '', s)] *)
Definition remove_unsafe (s : string) : string :=
  filter (fun c => Chars.is_alnum c || Chars.is_space c) s.

Definition is_dot (c : ascii) : bool := Ascii.eqb c "."%char.

End Str.

(** ** Integers as text *)

(** [str(n)] for a Python [int]. *)
Definition str (n : Z) : string := pretty n.

(** [format(n, '0<w>d')]: zero padding to width [w], the sign counted in
    the width. *)
Definition zfill (w : nat) (digits : string) : string :=
  Str.replicate (w - String.length digits) "0"%char +:+ digits.

Definition format_d (w : nat) (n : Z) : string :=
  if n <? 0 then "-" +:+ zfill (w - 1) (str (- n)) else zfill w (str n).

(** [int(s)] on a string of ASCII digits. *)
Fixpoint int_go (acc : Z) (s : string) : Z :=
  match s with
  | EmptyString => acc
  | String c r => int_go (10 * acc + Chars.digit_value c) r
  end.

Definition int (s : string) : Z := int_go 0 s.

(** ** Sanitizing titles and show names (lines 390-391 and 398-399) *)

(** [safe_title]: line 390 removes what is neither alphanumeric nor white
    space; line 391 turns white-space runs into dots, strips dots at both
    ends and keeps the first 50 characters. *)
Definition safe_title_of (title : string) : string :=
  let safe_title := Str.remove_unsafe title in
  Str.take 50 (Str.strip Str.is_dot (Str.collapse_ws safe_title)).

(** [clean_show_name]: lines 398-399; no strip, no truncation. *)
Definition clean_show_name_of (show_name : string) : string :=
  let clean_show_name := Str.remove_unsafe show_name in
  Str.collapse_ws clean_show_name.

(** ** The resolution tag (lines 69 and 394-395) *)

(** [res_regex = re.compile(r"(\d{3,4}p|[24]k)", re.IGNORECASE)] *)
Module ResRegex.

(** [\d{n}p] anchored at the start of [s]. *)
Fixpoint digits_p (n : nat) (s : string) : option string :=
  match n, s with
  | O, String c _ =>
      if Ascii.eqb (Chars.lower c) "p" then Some (String c "") else None
  | S n', String c r =>
      if Chars.is_digit c then String c <$> digits_p n' r else None
  | _, EmptyString => None
  end.

(** [[24]k] anchored at the start of [s]. *)
Definition two_four_k (s : string) : option string :=
  match s with
  | String a (String b _) =>
      if (Ascii.eqb a "2" || Ascii.eqb a "4") && Ascii.eqb (Chars.lower b) "k"
      then Some (String a (String b ""))
      else None
  | _ => None
  end.

(** The whole pattern anchored at the start of [s]: the greedy [\d{3,4}]
    tries four digits before three, and the first alternative comes before
    the second. *)
Definition match_at (s : string) : option string :=
  match digits_p 4 s with
  | Some m => Some m
  | None =>
      match digits_p 3 s with
      | Some m => Some m
      | None => two_four_k s
      end
  end.

(** [res_regex.search(s)]: the match at the leftmost position that has
    one; the result is [group(1)]. *)
Fixpoint search (s : string) : option string :=
  match match_at s with
  | Some m => Some m
  | None =>
      match s with
      | EmptyString => None
      | String _ r => search r
      end
  end.

End ResRegex.

(** Line 395: [res_match.group(1).lower() if res_match else ""]. *)
Definition resolution_of (filename : string) : string :=
  match ResRegex.search filename with
  | Some group1 => Str.lower group1
  | None => ""
  end.

(** ** Paths *)

(** A path is its parent directory and its name; [file_path.parent / n] for
    a name [n] without separator is the sibling below. *)
Abbreviation Path := (string * string)%type.

Definition parent (p : Path) : string := p.1.
Definition name (p : Path) : string := p.2.
Definition sibling (p : Path) (new_name : string) : Path := (parent p, new_name).

(** [PurePath.suffix]: with [i = name.rfind('.')], the slice [name[i:]] when
    [0 < i < len(name) - 1], otherwise empty.  [rfind_dot] returns the slice
    from the last dot together with [i]. *)
Fixpoint rfind_dot (i : nat) (s : string) : option (nat * string) :=
  match s with
  | EmptyString => None
  | String c r =>
      match rfind_dot (S i) r with
      | Some found => Some found
      | None => if Str.is_dot c then Some (i, s) else None
      end
  end.

Definition suffix_of (filename : string) : string :=
  match rfind_dot 0 filename with
  | Some (i, tail) =>
      if Nat.ltb 0 i && Nat.ltb i (String.length filename - 1) then tail else ""
  | None => ""
  end.

(** ** The continuous-mapping inference (lines 125-195) *)

(** What [subprocess.run(..., timeout=30)] can do. *)
Inductive RunResult :=
  | Completed (returncode : Z) (stdout stderr : string)
  | TimeoutExpired
  | RunException.

(** The maximal runs of [\w] characters of a string, left to right; [cur]
    holds the run being read, reversed. *)
Definition flush_run (cur : string) : list string :=
  match cur with
  | EmptyString => []
  | _ => [String.rev cur]
  end.

Fixpoint word_runs_go (cur : string) (s : string) : list string :=
  match s with
  | EmptyString => flush_run cur
  | String c r =>
      if Chars.is_word c then word_runs_go (String c cur) r
      else flush_run cur ++ word_runs_go "" r
  end.

(** [re.findall(r'\b\d+\b', s)]: a run of digits matches when a word
    boundary is on both sides, that is, when it is a whole maximal run of
    word characters. *)
Definition findall_numbers (s : string) : list string :=
  filter (fun w => Is_true (Str.forallb Chars.is_digit w)) (word_runs_go "" s).

(** Lines 163-195, on the outcome of the subprocess call. *)
Definition parse_anime_mapping (result : RunResult) : option Z :=
  match result with
  | Completed returncode stdout _ =>
      if negb (returncode =? 0) then None
      else
        let response := Str.strip Chars.is_space stdout in
        if String.eqb response "UNKNOWN" then None
        else
          let numbers := findall_numbers response in
          match last numbers with
          | Some n =>
              let continuous_ep := int n in
              if (1 <=? continuous_ep) && (continuous_ep <=? 200)
              then Some continuous_ep
              else None
          | None => None
          end
  | TimeoutExpired => None
  | RunException => None
  end.

(** ** The catalog entry of a show (lines 86-92) *)

Module Show.

Record Info := {
  id : Z;
  name : string;
  seasons : gmap Z Z;
  total_episodes : Z;
  is_anime : bool
}.

End Show.

(** ** Python truthiness *)

(** [if continuous_ep:] on an [Optional[int]]. *)
Definition truthy_int (o : option Z) : bool :=
  match o with
  | Some n => negb (n =? 0)
  | None => false
  end.

(** [if title:] on an [Optional[str]]. *)
Definition truthy_str (o : option string) : bool :=
  match o with
  | Some s => Str.nonempty s
  | None => false
  end.

(** ** Building names (lines 402-413 and 421-430) *)

(** [safe_title and safe_title != str(final_episode)] *)
Definition title_present (safe_title : string) (final_episode : Z) : bool :=
  Str.nonempty safe_title && negb (String.eqb safe_title (str final_episode)).

(** [S{final_season:02d}EP{final_episode:03d}] *)
Definition episode_code (final_season final_episode : Z) : string :=
  "S" +:+ format_d 2 final_season +:+ "EP" +:+ format_d 3 final_episode.

Record NameParts := {
  clean_show_name : string;
  final_season : Z;
  final_episode : Z;
  safe_title : string;
  resolution : string;
  suffix : string
}.

(** Lines 402-413: the name tried first. *)
Definition base_name (p : NameParts) : string :=
  if title_present (safe_title p) (final_episode p) then
    if Str.nonempty (resolution p) then
      clean_show_name p +:+ "." +:+ episode_code (final_season p) (final_episode p)
        +:+ "." +:+ safe_title p +:+ "." +:+ resolution p +:+ suffix p
    else
      clean_show_name p +:+ "." +:+ episode_code (final_season p) (final_episode p)
        +:+ "." +:+ safe_title p +:+ suffix p
  else
    if Str.nonempty (resolution p) then
      clean_show_name p +:+ "." +:+ episode_code (final_season p) (final_episode p)
        +:+ "." +:+ resolution p +:+ suffix p
    else
      clean_show_name p +:+ "." +:+ episode_code (final_season p) (final_episode p)
        +:+ suffix p.

(** Lines 421-430: the name tried with [counter]. *)
Definition numbered_name (p : NameParts) (counter : Z) : string :=
  if title_present (safe_title p) (final_episode p) then
    if Str.nonempty (resolution p) then
      clean_show_name p +:+ "." +:+ episode_code (final_season p) (final_episode p)
        +:+ "." +:+ safe_title p +:+ "_" +:+ str counter
        +:+ "." +:+ resolution p +:+ suffix p
    else
      clean_show_name p +:+ "." +:+ episode_code (final_season p) (final_episode p)
        +:+ "." +:+ safe_title p +:+ "_" +:+ str counter +:+ suffix p
  else
    if Str.nonempty (resolution p) then
      clean_show_name p +:+ "." +:+ episode_code (final_season p) (final_episode p)
        +:+ "_" +:+ str counter +:+ "." +:+ resolution p +:+ suffix p
    else
      clean_show_name p +:+ "." +:+ episode_code (final_season p) (final_episode p)
        +:+ "_" +:+ str counter +:+ suffix p.

(** ** Collisions (lines 419-432) *)

(** The [while] loop, started with the base name and [counter = 1].  It
    returns the name it stops at and the counter it stops with; [None]
    means that [fuel] iterations did not reach the end. *)
Fixpoint collision_loop (fuel : nat) (disk : gset Path) (file_path : Path)
    (p : NameParts) (new_name : string) (counter : Z) : option (string * Z) :=
  let new_path := sibling file_path new_name in
  if bool_decide (new_path ∈ disk) && negb (bool_decide (new_path = file_path))
  then
    match fuel with
    | O => None
    | S fuel' =>
        collision_loop fuel' disk file_path p (numbered_name p counter) (counter + 1)
    end
  else Some (new_name, counter).

(** One more iteration than there are paths on the disk is always enough
    (see [resolve_collision_total]). *)
Definition resolve_collision (disk : gset Path) (file_path : Path)
    (p : NameParts) : option (string * Z) :=
  collision_loop (S (size disk)) disk file_path p (base_name p) 1.

(** ** The log *)

Record LogEntry := {
  original : string;
  detected : string;
  final : string;
  new_name : string;
  title : string
}.

(** The file system below the scanned root and [log_entries]. *)
Record State := {
  disk : gset Path;
  log_entries : list LogEntry
}.

Inductive Outcome :=
  | NoEpisodeInfo
  | AlreadyNamed
  | Previewed (new_name : string)
  | Renamed (new_name : string)
  | RenameFailed (new_name : string)
  | LoopUnfinished.

(** ** The collaborators *)

(** The external services, as the answers they give during one run.
    [get_show_info] is the cached catalog lookup of lines 74-123;
    [episode_details_name] is [episode_api.details(id, season, episode).name],
    [None] when the call raises or the answer has no name;
    [extract_episode_info] is the episode guess of lines 212-280;
    [ollama_run_mapping] is the subprocess call of lines 159-161 for the
    prompt built from its three arguments; [os_rename] says whether
    [file_path.rename(new_path)] returns without raising. *)
Record Oracles := {
  get_show_info : string -> option Show.Info;
  episode_details_name : Z -> Z -> Z -> option string;
  extract_episode_info : string -> option (Z * Z);
  ollama_run_mapping : Show.Info -> Z -> Z -> RunResult;
  os_rename : Path -> Path -> bool
}.

(** Lines 197-209. *)
Definition get_episode_title (o : Oracles) (show_name : string)
    (season episode : Z) : option string :=
  match get_show_info o show_name with
  | None => None
  | Some show_info => episode_details_name o (Show.id show_info) season episode
  end.

(** Lines 125-195. *)
Definition ask_ollama_for_anime_mapping (o : Oracles) (show_info : Show.Info)
    (detected_season detected_episode : Z) : option Z :=
  parse_anime_mapping (ollama_run_mapping o show_info detected_season detected_episode).

(** ** Locating the episode (lines 345-365) *)

(** Lines 356-358. *)
Definition fallback_episode (detected_season detected_episode : Z) : Z :=
  let continuous_ep := detected_episode in
  if detected_season >? 1
  then continuous_ep + (detected_season - 1) * 12
  else continuous_ep.

Definition locate_episode (o : Oracles) (show_info : Show.Info)
    (detected_season detected_episode : Z) : Z * Z :=
  if Show.is_anime show_info then
    let continuous_ep :=
      ask_ollama_for_anime_mapping o show_info detected_season detected_episode in
    match continuous_ep with
    | Some mapped =>
        if truthy_int continuous_ep then (1, mapped)
        else (1, fallback_episode detected_season detected_episode)
    | None => (1, fallback_episode detected_season detected_episode)
    end
  else (detected_season, detected_episode).

(** ** Looking the title up (lines 368-387) *)

Definition title_text (t : option string) : string := default "" t.

Definition lookup_title (o : Oracles) (show_name : string) (is_anime : bool)
    (detected_season detected_episode : Z) (located : Z * Z) : Z * Z * string :=
  let '(final_season, final_episode) := located in
  let title := get_episode_title o show_name final_season final_episode in
  let '(final_season, final_episode, title) :=
    if negb (truthy_str title) && is_anime && (final_season =? 1) then
      let title := get_episode_title o show_name detected_season detected_episode in
      if truthy_str title
      then (detected_season, detected_episode, title)
      else (detected_season, detected_episode, title)
    else (final_season, final_episode, title) in
  let title := if truthy_str title then title_text title else str final_episode in
  (final_season, final_episode, title).

(** ** One file (the body of the loop, lines 334-452) *)

(** Everything the loop body has computed when it reaches line 416. *)
Record Plan := {
  detected_season : Z;
  detected_episode : Z;
  resolved_title : string;
  parts : NameParts
}.

Definition plan_file (o : Oracles) (show_name : string) (show_info : Show.Info)
    (file_path : Path) : option Plan :=
  let filename := name file_path in
  match extract_episode_info o filename with
  | None => None
  | Some (detected_season, detected_episode) =>
      let is_anime := Show.is_anime show_info in
      let '(final_season, final_episode, title) :=
        lookup_title o show_name is_anime detected_season detected_episode
          (locate_episode o show_info detected_season detected_episode) in
      Some {| detected_season := detected_season;
              detected_episode := detected_episode;
              resolved_title := title;
              parts := {| clean_show_name := clean_show_name_of show_name;
                          final_season := final_season;
                          final_episode := final_episode;
                          safe_title := safe_title_of title;
                          resolution := resolution_of filename;
                          suffix := suffix_of filename |} |}
  end.

(** Lines 438-444. *)
Definition log_entry (filename : string) (pl : Plan) (new_name : string) : LogEntry :=
  {| original := filename;
     detected := "S" +:+ format_d 2 (detected_season pl)
                 +:+ "E" +:+ format_d 2 (detected_episode pl);
     final := "S" +:+ format_d 2 (final_season (parts pl))
              +:+ "E" +:+ format_d 2 (final_episode (parts pl));
     new_name := new_name;
     title := resolved_title pl |}.

Definition append_log (st : State) (e : LogEntry) : State :=
  {| disk := disk st; log_entries := log_entries st ++ [e] |}.

(** Lines 448-452: the rename either moves the file or raises, and the
    handler only reports.  The move is that of a plain file; for a path
    with other paths below it see [move_tree]. *)
Definition rename_step (o : Oracles) (st : State) (file_path new_path : Path)
    : State * Outcome :=
  if os_rename o file_path new_path
  then ({| disk := {[ new_path ]} ∪ (disk st ∖ {[ file_path ]});
           log_entries := log_entries st |}, Renamed (name new_path))
  else (st, RenameFailed (name new_path)).

Definition process_file (o : Oracles) (dry_run : bool) (show_name : string)
    (show_info : Show.Info) (st : State) (file_path : Path) : State * Outcome :=
  match plan_file o show_name show_info file_path with
  | None => (st, NoEpisodeInfo)
  | Some pl =>
      match resolve_collision (disk st) file_path (parts pl) with
      | None => (st, LoopUnfinished)
      | Some (new_name, _) =>
          let new_path := sibling file_path new_name in
          if bool_decide (new_path = file_path) then (st, AlreadyNamed)
          else
            let st := append_log st (log_entry (name file_path) pl new_name) in
            if dry_run then (st, Previewed new_name)
            else rename_step o st file_path new_path
      end
  end.

(** ** One show (lines 317-456) *)

(** The files of a show in order; the result is the file system and
    [log_entries] when the loop ends. *)
Definition rename_show_files (o : Oracles) (show_name : string)
    (files : list Path) (dry_run : bool) (disk0 : gset Path) : State :=
  let st0 := {| disk := disk0; log_entries := [] |} in
  match get_show_info o show_name with
  | None => st0
  | Some show_info =>
      foldl (fun st file_path =>
               (process_file o dry_run show_name show_info st file_path).1)
            st0 files
  end.

(** ** Vocabulary of the statements *)

(** The name up to and including the title segment (or the episode code
    when the title is left out), and what follows it: the resolution tag,
    if any, and the suffix. *)
Definition stem (p : NameParts) : string :=
  clean_show_name p +:+ "." +:+ episode_code (final_season p) (final_episode p)
    +:+ (if title_present (safe_title p) (final_episode p)
         then "." +:+ safe_title p else "").

Definition tail_of (p : NameParts) : string :=
  (if Str.nonempty (resolution p) then "." +:+ resolution p else "") +:+ suffix p.

(** The names the loop tries, in order: the base name, then the numbered
    names from counter 1. *)
Definition candidate (p : NameParts) (j : Z) : string :=
  if j =? 0 then base_name p else numbered_name p j.

(** The loop condition of line 420. *)
Definition blocked (disk : gset Path) (file_path : Path) (new_name : string) : Prop :=
  sibling file_path new_name ∈ disk ∧ sibling file_path new_name ≠ file_path.

Definition blocked_test (disk : gset Path) (file_path : Path) (new_name : string) : bool :=
  bool_decide (sibling file_path new_name ∈ disk)
  && negb (bool_decide (sibling file_path new_name = file_path)).

(** The title sanitizer in the words of the specification: sanitized like
    the show name, then truncated to 50 characters. *)
Definition spec_safe_title_of (title : string) : string :=
  Str.take 50 (clean_show_name_of title).

(** ** Sample runs *)

Module Sample.

Definition show (show_name : string) (anime : bool) : Show.Info :=
  {| Show.id := 1399; Show.name := show_name; Show.seasons := {[ 1 := 24 ]};
     Show.total_episodes := 24; Show.is_anime := anime |}.

(** A catalog that knows the show under every name, a fixed episode guess,
    a fixed inference outcome and a rename that works or not. *)
Definition oracles (anime : bool) (titles : Z -> Z -> option string)
    (guess : option (Z * Z)) (run : RunResult) (rename_ok : bool) : Oracles :=
  {| get_show_info := fun show_name => Some (show show_name anime);
     episode_details_name := fun _ season episode => titles season episode;
     extract_episode_info := fun _ => guess;
     ollama_run_mapping := fun _ _ _ => run;
     os_rename := fun _ _ => rename_ok |}.

Definition no_titles : Z -> Z -> option string := fun _ _ => None.

(** Only season 2, episode 3 has a title. *)
Definition arc_two_titles : Z -> Z -> option string :=
  fun season episode =>
    if (season =? 2) && (episode =? 3) then Some "Arc Two Begins" else None.

Definition the_return : Z -> Z -> option string := fun _ _ => Some "The Return".

Definition folder : string := "/tv/Example Show".

Definition empty_state (files : list Path) : State :=
  {| disk := list_to_set files; log_entries := [] |}.

End Sample.

Module SampleFiles.

(** The parts of end-to-end example 1. *)
Definition the_return_parts : NameParts :=
  {| clean_show_name := "Example.Show"; final_season := 2; final_episode := 5;
     safe_title := "The.Return"; resolution := "1080p"; suffix := ".mkv" |}.

Definition original : Path := (Sample.folder, "Example.Show.S02E05.1080p.mkv").

Definition canonical : Path :=
  (Sample.folder, "Example.Show.S02EP005.The.Return.1080p.mkv").

Definition canonical_1 : Path :=
  (Sample.folder, "Example.Show.S02EP005.The.Return_1.1080p.mkv").

Definition non_anime : Oracles :=
  Sample.oracles false Sample.the_return (Some (2, 5)) TimeoutExpired true.

Definition non_anime_failing_rename : Oracles :=
  Sample.oracles false Sample.the_return (Some (2, 5)) TimeoutExpired false.

End SampleFiles.

(** ** The episode guess (lines 219-280) *)

(** [re.search(r"S(\d{1,2})E(\d{1,2})", response, re.IGNORECASE)] *)
Module EpRegex.

Definition is_s (c : ascii) : bool := Ascii.eqb (Chars.lower c) "s".
Definition is_e (c : ascii) : bool := Ascii.eqb (Chars.lower c) "e".

(** The second group, [(\d{1,2})] with nothing after it: two digits when
    there are two. *)
Definition group2 (s : string) : option string :=
  match s with
  | String a r =>
      if Chars.is_digit a then
        match r with
        | String b _ =>
            if Chars.is_digit b then Some (String a (String b ""))
            else Some (String a "")
        | EmptyString => Some (String a "")
        end
      else None
  | EmptyString => None
  end.

(** [E(\d{1,2})] *)
Definition e_group2 (s : string) : option string :=
  match s with
  | String c r => if is_e c then group2 r else None
  | EmptyString => None
  end.

(** The whole pattern anchored at the start of [s]: after the [S], the
    greedy first group takes two digits and gives one back when what
    follows two digits does not match. *)
Definition match_at (s : string) : option (string * string) :=
  match s with
  | String c (String a r1) =>
      if is_s c && Chars.is_digit a then
        let with_two :=
          match r1 with
          | String b r2 =>
              if Chars.is_digit b
              then pair (String a (String b "")) <$> e_group2 r2
              else None
          | EmptyString => None
          end in
        match with_two with
        | Some groups => Some groups
        | None => pair (String a "") <$> e_group2 r1
        end
      else None
  | _ => None
  end.

Fixpoint search (s : string) : option (string * string) :=
  match match_at s with
  | Some groups => Some groups
  | None =>
      match s with
      | EmptyString => None
      | String _ r => search r
      end
  end.

End EpRegex.

(** Lines 251-280, on the outcome of the subprocess call. *)
Definition parse_episode_info (result : RunResult) : option (Z * Z) :=
  match result with
  | Completed returncode stdout _ =>
      if negb (returncode =? 0) then None
      else
        let response := Str.strip Chars.is_space stdout in
        if String.eqb response "NONE" then None
        else
          match EpRegex.search response with
          | Some (group1, group2) =>
              let season := int group1 in
              let episode := int group2 in
              if (1 <=? season) && (season <=? 20) && ((1 <=? episode) && (episode <=? 50))
              then Some (season, episode)
              else None
          | None => None
          end
  | TimeoutExpired => None
  | RunException => None
  end.

(** The collaborators when the episode guess is the one that lines 212-280
    compute from the subprocess call [run_guess] makes for a file name. *)
Definition with_guess_runs (o : Oracles) (run_guess : string -> RunResult) : Oracles :=
  {| get_show_info := get_show_info o;
     episode_details_name := episode_details_name o;
     extract_episode_info := fun filename => parse_episode_info (run_guess filename);
     ollama_run_mapping := ollama_run_mapping o;
     os_rename := os_rename o |}.

(** ** The show name of a folder (lines 282-288) *)

(** [[_\-\.]] *)
Definition is_separator (c : ascii) : bool :=
  Ascii.eqb c "_" || Ascii.eqb c "-" || Ascii.eqb c ".".

(** [re.sub(r'[_\-\.]', ' ', s)] *)
Definition separators_to_spaces (s : string) : string :=
  Str.map (fun c => if is_separator c then " "%char else c) s.

(** [re.sub(r'\s+', ' ', s)]; [in_run] as in [Str.collapse_ws_go]. *)
Fixpoint squeeze_ws_go (in_run : bool) (s : string) : string :=
  match s with
  | EmptyString => EmptyString
  | String c r =>
      if Chars.is_space c
      then if in_run then squeeze_ws_go true r
           else String " "%char (squeeze_ws_go true r)
      else String c (squeeze_ws_go false r)
  end.

Definition squeeze_ws (s : string) : string := squeeze_ws_go false s.

Definition detect_show_from_folder (folder_name : string) : option string :=
  let show_name := separators_to_spaces folder_name in
  let show_name := Str.strip Chars.is_space (squeeze_ws show_name) in
  if Str.nonempty show_name then Some show_name else None.

(** A name as the function returns them: no separator, white space only as
    single spaces between other characters, not empty. *)
Fixpoint single_spaced (after_space : bool) (s : string) : bool :=
  match s with
  | EmptyString => negb after_space
  | String c r =>
      if Chars.is_space c
      then Ascii.eqb c " " && negb after_space && single_spaced true r
      else negb (is_separator c) && single_spaced false r
  end.

Definition tidy_name (s : string) : bool := Str.nonempty s && single_spaced true s.

(** [single_spaced] without the condition on the end of the string. *)
Fixpoint spaced (after_space : bool) (s : string) : bool :=
  match s with
  | EmptyString => true
  | String c r =>
      if Chars.is_space c
      then Ascii.eqb c " " && negb after_space && spaced true r
      else negb (is_separator c) && spaced false r
  end.

(** ** The run log (lines 454-482) *)

(** A JSON document.  The log file is modelled by the document it holds,
    [None] when the file does not exist. *)
Unset Elimination Schemes.
Inductive Json :=
  | JNull
  | JBool (b : bool)
  | JNum (n : Z)
  | JStr (s : string)
  | JList (items : list Json)
  | JObj (fields : list (string * Json)).
Set Elimination Schemes.

(** One element of [log_entries] (lines 438-444) as JSON. *)
Definition entry_json (e : LogEntry) : Json :=
  JObj [("original", JStr (original e));
        ("detected", JStr (detected e));
        ("final", JStr (final e));
        ("new_name", JStr (new_name e));
        ("title", JStr (title e))].

(** Lines 462-467. *)
Definition log_data (timestamp show_name : string) (entries : list LogEntry) : Json :=
  JObj [("timestamp", JStr timestamp);
        ("show_name", JStr show_name);
        ("total_files", JNum (Z.of_nat (length entries)));
        ("entries", JList (entry_json <$> entries))].

(** Lines 469-480; [timestamp] is what [datetime.now()] gives. *)
Definition write_rename_log (log_file : option Json) (timestamp show_name : string)
    (entries : list LogEntry) : option Json :=
  let existing_data :=
    match log_file with
    | Some existing_data =>
        let existing_data :=
          match existing_data with
          | JList items => items
          | _ => [existing_data]
          end in
        existing_data ++ [log_data timestamp show_name entries]
    | None => [log_data timestamp show_name entries]
    end in
  Some (JList existing_data).

(** [rename_show_files] with its last two lines (455-456), for a caller
    that passes a log file, as [main] does. *)
Definition rename_show_files_logged (o : Oracles) (timestamp show_name : string)
    (files : list Path) (dry_run : bool) (disk0 : gset Path)
    (log_file : option Json) : gset Path * option Json :=
  let st := rename_show_files o show_name files dry_run disk0 in
  (disk st,
   match log_entries st with
   | [] => log_file
   | _ => write_rename_log log_file timestamp show_name (log_entries st)
   end).

(** The loop of [main] over the shows (lines 526-527); [now] gives the
    time stamp used for a show. *)
Definition process_shows (o : Oracles) (now : string -> string)
    (show_files : list (string * list Path)) (dry_run : bool)
    (disk0 : gset Path) (log_file : option Json) : gset Path * option Json :=
  foldl (fun state show =>
           rename_show_files_logged o (now show.1) show.1 show.2 dry_run
             state.1 state.2)
        (disk0, log_file) show_files.

(** The records a log file holds when read the way line 473 reads it. *)
Definition records (log_file : option Json) : list Json :=
  match log_file with
  | Some (JList items) => items
  | Some other => [other]
  | None => []
  end.

(** ** The catalog lookup and its cache (lines 72-123) *)

Module Tmdb.

(** What lines 97-112 read from [tv.details(id)]: the genre names, the
    origin countries and, per season, [season_number] and [episode_count]
    with their default 0. *)
Record Details := {
  genres : list string;
  origin_country : list string;
  seasons : list (Z * Z)
}.

(** [search] gives the identifier and name of each result, [details] the
    details of a show; [None] stands for a call that raises. *)
Record Api := {
  search : string -> option (list (Z * string));
  details : Z -> option Details
}.

End Tmdb.

(** [needle in hay] *)
Fixpoint is_prefix (needle hay : string) : bool :=
  match needle, hay with
  | EmptyString, _ => true
  | String a n, String b h => Ascii.eqb a b && is_prefix n h
  | String _ _, EmptyString => false
  end.

Fixpoint contains (needle hay : string) : bool :=
  is_prefix needle hay
  || match hay with
     | EmptyString => false
     | String _ h => contains needle h
     end.

Module Catalog.

(** Lines 107-112: the season table and the running total. *)
Definition add_season (acc : gmap Z Z * Z) (season_data : Z * Z) : gmap Z Z * Z :=
  let season_num := season_data.1 in
  if season_num >? 0 then
    let episode_count := season_data.2 in
    (<[season_num := episode_count]> acc.1, acc.2 + episode_count)
  else acc.

Definition season_table (seasons : list (Z * Z)) : gmap Z Z * Z :=
  foldl add_season (∅, 0) seasons.

(** Lines 101-104. *)
Definition likely_anime (show_name : string) (d : Tmdb.Details) : bool :=
  let genres := Str.lower <$> Tmdb.genres d in
  bool_decide ("animation" ∈ genres)
  && (bool_decide ("JP" ∈ Tmdb.origin_country d)
      || contains "japan" (Str.lower show_name)).

(** Lines 86-115, for the first search result.  A details answer is
    either missing (the call raises: the defaults of lines 89-91 stay) or
    read as a whole. *)
Definition build_show_info (api : Tmdb.Api) (show : Z * string) : Show.Info :=
  match Tmdb.details api show.1 with
  | Some d =>
      let table := season_table (Tmdb.seasons d) in
      {| Show.id := show.1; Show.name := show.2;
         Show.seasons := table.1; Show.total_episodes := table.2;
         Show.is_anime := likely_anime show.2 d |}
  | None =>
      {| Show.id := show.1; Show.name := show.2;
         Show.seasons := ∅; Show.total_episodes := 0;
         Show.is_anime := false |}
  end.

(** Lines 74-123, with [show_cache] passed in and returned. *)
Definition get_show_info (api : Tmdb.Api) (show_cache : gmap string Show.Info)
    (show_name : string) : gmap string Show.Info * option Show.Info :=
  match show_cache !! show_name with
  | Some show_info => (show_cache, Some show_info)
  | None =>
      match Tmdb.search api show_name with
      | Some (show :: _) =>
          let show_info := build_show_info api show in
          (<[show_name := show_info]> show_cache, Some show_info)
      | Some [] => (show_cache, None)
      | None => (show_cache, None)
      end
  end.

End Catalog.

(** The sum of the values of a season table. *)
Definition table_total (seasons : gmap Z Z) : Z :=
  map_fold (fun _ episode_count total => episode_count + total) 0 seasons.

(** The seasons of a details answer that line 109 keeps, and the sum of
    their episode counts. *)
Definition listed (seasons : list (Z * Z)) : list (Z * Z) :=
  filter (fun season_data => 0 < season_data.1) seasons.

Definition count_total (seasons : list (Z * Z)) : Z :=
  foldr (fun season_data total => season_data.2 + total) 0 seasons.

(** ** Grouping the files by show (lines 290-315) *)

Definition video_extensions : list string :=
  [".mkv"; ".mp4"; ".avi"; ".mov"; ".wmv"; ".flv"; ".webm"].

(** [file_path.suffix.lower() in video_extensions] *)
Definition is_video (file_path : Path) : bool :=
  bool_decide (Str.lower (suffix_of (name file_path)) ∈ video_extensions).

(** [PurePath.stem]: the name without its suffix. *)
Definition stem_of (filename : string) : string :=
  match rfind_dot 0 filename with
  | Some (i, _) =>
      if Nat.ltb 0 i && Nat.ltb i (String.length filename - 1)
      then Str.take i filename
      else filename
  | None => filename
  end.

(** [PurePath.name] of a directory: what follows the last [/] of its
    path. *)
Fixpoint last_component (dir : string) : string :=
  match dir with
  | EmptyString => EmptyString
  | String c r =>
      if contains "/" r then last_component r
      else if Ascii.eqb c "/" then r else dir
  end.

(** [s.split()]: the maximal runs of characters that are not white space;
    [cur] holds the run being read, reversed. *)
Fixpoint split_ws_go (cur : string) (s : string) : list string :=
  match s with
  | EmptyString => flush_run cur
  | String c r =>
      if Chars.is_space c then flush_run cur ++ split_ws_go "" r
      else split_ws_go (String c cur) r
  end.

Definition split_ws (s : string) : list string := split_ws_go "" s.

(** [' '.join(words)] *)
Fixpoint join_spaces (words : list string) : string :=
  match words with
  | [] => ""
  | [w] => w
  | w :: rest => w +:+ " " +:+ join_spaces rest
  end.

(** The show name lines 297-312 give a video file, if any. *)
Definition show_name_for (root_path : string) (file_path : Path) : option string :=
  let show_folder := parent file_path in
  if negb (String.eqb show_folder root_path) then
    detect_show_from_folder (last_component show_folder)
  else
    let filename_clean := separators_to_spaces (stem_of (name file_path)) in
    let words := split_ws filename_clean in
    if Nat.leb 2 (length words) then
      let show_name := Str.strip Chars.is_space (join_spaces (take 3 words)) in
      if Str.nonempty show_name then Some show_name else None
    else None.

(** [show_files[show_name].append(file_path)] on a dictionary kept as the
    list of its items in insertion order. *)
Fixpoint add_file (show_files : list (string * list Path)) (show_name : string)
    (file_path : Path) : list (string * list Path) :=
  match show_files with
  | [] => [(show_name, [file_path])]
  | (key, files) :: rest =>
      if String.eqb key show_name then (key, files ++ [file_path]) :: rest
      else (key, files) :: add_file rest show_name file_path
  end.

(** The body of the loop of line 295. *)
Definition group_step (root_path : string) (show_files : list (string * list Path))
    (file_path : Path) : list (string * list Path) :=
  if is_video file_path then
    match show_name_for root_path file_path with
    | Some show_name => add_file show_files show_name file_path
    | None => show_files
    end
  else show_files.

(** [found] is what [root_path.rglob('*')] yields, in its order. *)
Definition group_files_by_show (root_path : string) (found : list Path)
    : list (string * list Path) :=
  foldl (group_step root_path) [] found.

(** The files that end up under [show_name]. *)
Definition grouped_as (root_path show_name : string) (file_path : Path) : Prop :=
  is_video file_path = true /\ show_name_for root_path file_path = Some show_name.

(** ** The whole run (lines 496-527) *)

(** [rename_show_files] with its last two lines, the log file counted
    among the paths of the disk: [log_file_path] is on the disk once the
    log has been written. *)
Definition rename_show_files_on_disk (o : Oracles) (timestamp : string)
    (log_file_path : Path) (show_name : string) (files : list Path)
    (dry_run : bool) (disk0 : gset Path) (log_file : option Json)
    : gset Path * option Json :=
  let st := rename_show_files o show_name files dry_run disk0 in
  match log_entries st with
  | [] => (disk st, log_file)
  | _ => ({[ log_file_path ]} ∪ disk st,
          write_rename_log log_file timestamp show_name (log_entries st))
  end.

(** [root_exists] and [root_is_dir] are what [root_path.exists()] and
    [root_path.is_dir()] answer, [found] what [root_path.rglob('*')]
    yields, [log_name] the name [rename_log_<time>.json] of line 520.
    The result is every path on the disk after the run, the log file
    included, and what the log file holds.  ([process_shows] is the same
    loop with the log file left out of the disk.) *)
Definition main (o : Oracles) (now : string -> string) (log_name : string)
    (root_exists root_is_dir : bool) (root_path : string) (found : list Path)
    (dry_run : bool) (disk0 : gset Path) (log_file : option Json)
    : gset Path * option Json :=
  if negb root_exists then (disk0, log_file)
  else if negb root_is_dir then (disk0, log_file)
  else
    let show_files := group_files_by_show root_path found in
    match show_files with
    | [] => (disk0, log_file)
    | _ =>
        let log_file_path := (root_path, log_name) in
        foldl (fun state show =>
                 rename_show_files_on_disk o (now show.1) log_file_path
                   show.1 show.2 dry_run state.1 state.2)
              (disk0, log_file) show_files
    end.

(** What a step may do to the disk when it is allowed to touch the files
    [allowed] only: a path that disappears is one of them, and a path that
    appears is in the folder of one of them. *)
Definition touches_only (allowed : list Path) (before after : gset Path) : Prop :=
  (forall q, q ∈ before -> q ∉ after -> q ∈ allowed)
  /\ (forall q, q ∉ before -> q ∈ after ->
        exists file_path, file_path ∈ allowed /\ parent q = parent file_path).

(** ** Directories *)

(** The path as one string. *)
Definition full_path (p : Path) : string :=
  if String.eqb (parent p) "/" then "/" +:+ name p
  else parent p +:+ "/" +:+ name p.

(** [q] lies below [p]: its folder is [p] or a folder under [p]. *)
Definition below (p q : Path) : bool :=
  String.eqb (parent q) (full_path p) || is_prefix (full_path p +:+ "/") (parent q).

Fixpoint drop_chars (n : nat) (s : string) : string :=
  match n, s with
  | S n', String _ r => drop_chars n' r
  | _, _ => s
  end.

(** Where a path below [p] is after [p] has been renamed to [p']. *)
Definition rebase (p p' q : Path) : Path :=
  (full_path p' +:+ drop_chars (String.length (full_path p)) (parent q), name q).

(** What [Path.rename] does to the paths on the disk when [p] is there:
    [p] becomes [p'] and everything below [p] moves with it. *)
Definition move_tree (p p' : Path) (disk : gset Path) : gset Path :=
  set_map (fun q => if bool_decide (q = p) then p'
                    else if below p q then rebase p p' q else q) disk.

(** As [touches_only], for a run that may also write the file [extra]. *)
Definition touches_only_or (extra : Path) (allowed : list Path)
    (before after : gset Path) : Prop :=
  (forall q, q ∈ before -> q ∉ after -> q ∈ allowed)
  /\ (forall q, q ∉ before -> q ∈ after ->
        q = extra
        \/ exists file_path, file_path ∈ allowed /\ parent q = parent file_path).

(** ** Text of the inference output *)




(** ** Strings: algebra of [+:+] *)

Lemma app_cons (c : ascii) (s t : string) : String c s +:+ t = String c (s +:+ t).
Proof. reflexivity. Qed.

Lemma app_nil_l (t : string) : "" +:+ t = t.
Proof. reflexivity. Qed.

Lemma app_nil_r (s : string) : s +:+ "" = s.
Proof. induction s as [|c s IH]; [done|]. by rewrite app_cons, IH. Qed.

Lemma app_assoc (s t u : string) : (s +:+ t) +:+ u = s +:+ (t +:+ u).
Proof. induction s as [|c s IH]; [done|]. by rewrite !app_cons, IH. Qed.

Lemma app_length (s t : string) :
  String.length (s +:+ t) = (String.length s + String.length t)%nat.
Proof. induction s as [|c s IH]; [done|]. rewrite app_cons. simpl. by rewrite IH. Qed.

Lemma app_inj_r (s1 s2 t : string) : s1 +:+ t = s2 +:+ t -> s1 = s2.
Proof.
  revert s2. induction s1 as [|c s1 IH]; intros [|d s2] H.
  - done.
  - apply (f_equal String.length) in H.
    rewrite app_nil_l, app_cons in H. simpl in H. rewrite app_length in H. lia.
  - apply (f_equal String.length) in H.
    rewrite app_nil_l, app_cons in H. simpl in H. rewrite app_length in H. lia.
  - rewrite !app_cons in H. injection H as -> H. f_equal. by apply IH.
Qed.


(** ** Names: where the counter sits *)

Lemma base_name_split (p : NameParts) : base_name p = stem p +:+ tail_of p.
Proof.
  unfold base_name, stem, tail_of.
  destruct (title_present _ _), (Str.nonempty _);
    rewrite ?app_assoc, ?app_nil_l, ?app_nil_r; reflexivity.
Qed.

Lemma numbered_name_split (p : NameParts) (counter : Z) :
  numbered_name p counter = stem p +:+ "_" +:+ str counter +:+ tail_of p.
Proof.
  unfold numbered_name, stem, tail_of.
  destruct (title_present _ _), (Str.nonempty _);
    rewrite ?app_assoc, ?app_nil_l, ?app_nil_r; reflexivity.
Qed.

Lemma numbered_name_inj (p : NameParts) (j k : Z) :
  numbered_name p j = numbered_name p k -> j = k.
Proof.
  rewrite !numbered_name_split. intros H.
  apply (inj (String.app (stem p))) in H.
  apply (inj (String.app "_")) in H.
  apply app_inj_r in H. by apply (inj pretty) in H.
Qed.



Lemma candidate_succ (p : NameParts) (j : Z) :
  0 <= j -> candidate p (j + 1) = numbered_name p (j + 1).
Proof. intros. unfold candidate. destruct (Z.eqb_spec (j + 1) 0); [lia|done]. Qed.

(** ** The collision loop *)

Section CollisionLoop.

Variable disk : gset Path.
Variable file_path : Path.
Variable p : NameParts.

Lemma blocked_test_true (new_name : string) :
  blocked_test disk file_path new_name = true <-> blocked disk file_path new_name.
Proof.
  unfold blocked_test, blocked.
  rewrite andb_true_iff, negb_true_iff, bool_decide_eq_true, bool_decide_eq_false.
  done.
Qed.

Lemma blocked_test_false (new_name : string) :
  blocked_test disk file_path new_name = false <-> ~ blocked disk file_path new_name.
Proof.
  rewrite <- blocked_test_true. destruct (blocked_test disk file_path new_name); split; done.
Qed.

Lemma collision_loop_unfold (fuel : nat) (new_name : string) (counter : Z) :
  collision_loop fuel disk file_path p new_name counter =
  if blocked_test disk file_path new_name
  then match fuel with
       | O => None
       | S fuel' =>
           collision_loop fuel' disk file_path p (numbered_name p counter) (counter + 1)
       end
  else Some (new_name, counter).
Proof. destruct fuel; reflexivity. Qed.

Lemma collision_loop_stop (fuel : nat) (new_name : string) (counter : Z) :
  ~ blocked disk file_path new_name ->
  collision_loop fuel disk file_path p new_name counter = Some (new_name, counter).
Proof.
  intros H. apply blocked_test_false in H.
  by rewrite collision_loop_unfold, H.
Qed.

(** Termination: every iteration that goes on has found one more numbered
    name on the disk, and numbered names are pairwise different. *)
Lemma collision_loop_terminates (fuel : nat) :
  forall (X : gset Path) (new_name : string) (counter : Z),
    (forall j, counter <= j ->
       sibling file_path (numbered_name p j) ∈ disk ->
       sibling file_path (numbered_name p j) ∈ X) ->
    (size X < fuel)%nat ->
    exists r, collision_loop fuel disk file_path p new_name counter = Some r.
Proof.
  induction fuel as [|fuel IH]; intros X new_name counter HX Hsize; [lia|].
  rewrite collision_loop_unfold.
  destruct (blocked_test disk file_path new_name); [|by eexists].
  destruct (decide (blocked disk file_path (numbered_name p counter))) as [Hb|Hb].
  - apply (IH (X ∖ {[ sibling file_path (numbered_name p counter) ]})).
    + intros j Hj Hin. apply elem_of_difference. split; [apply HX; [lia|done]|].
      rewrite elem_of_singleton. intros Heq.
      injection Heq as Heq. apply numbered_name_inj in Heq. lia.
    + destruct Hb as [Hin _]. apply HX in Hin; [|lia].
      rewrite size_difference by (by apply singleton_subseteq_l).
      rewrite size_singleton.
      assert (size X <> 0)%nat as Hne.
      { intros Hz. apply size_empty_iff in Hz. set_solver. }
      lia.
  - exists (numbered_name p counter, counter + 1). by apply collision_loop_stop.
Qed.

(** The loop started on candidate [j] runs through [m] blocked candidates
    and stops at the first free one. *)
Lemma collision_loop_run (m : nat) :
  forall (fuel : nat) (j : Z),
    0 <= j ->
    (forall i, j <= i < j + Z.of_nat m -> blocked disk file_path (candidate p i)) ->
    ~ blocked disk file_path (candidate p (j + Z.of_nat m)) ->
    (m <= fuel)%nat ->
    collision_loop fuel disk file_path p (candidate p j) (j + 1)
    = Some (candidate p (j + Z.of_nat m), j + Z.of_nat m + 1).
Proof.
  induction m as [|m IH]; intros fuel j Hj Hblocked Hfree Hfuel.
  - rewrite Z.add_0_r in *. by apply collision_loop_stop.
  - destruct fuel as [|fuel]; [lia|].
    rewrite collision_loop_unfold.
    assert (blocked_test disk file_path (candidate p j) = true) as ->.
    { apply blocked_test_true, Hblocked. lia. }
    rewrite <- candidate_succ by done.
    replace (j + Z.of_nat (S m)) with ((j + 1) + Z.of_nat m) in * by lia.
    apply IH; [lia| |done|lia].
    intros i Hi. apply Hblocked. lia.
Qed.

(** Conversely, whatever the loop returns is the first free candidate. *)
Lemma collision_loop_char (fuel : nat) :
  forall (j : Z) (r : string * Z),
    0 <= j ->
    collision_loop fuel disk file_path p (candidate p j) (j + 1) = Some r ->
    exists m : nat,
      r = (candidate p (j + Z.of_nat m), j + Z.of_nat m + 1)
      /\ (forall i, j <= i < j + Z.of_nat m -> blocked disk file_path (candidate p i))
      /\ ~ blocked disk file_path (candidate p (j + Z.of_nat m)).
Proof.
  induction fuel as [|fuel IH]; intros j r Hj; rewrite collision_loop_unfold;
    destruct (blocked_test disk file_path (candidate p j)) eqn:Htest; try done.
  - intros [= <-]. exists 0%nat. rewrite Z.add_0_r.
    split; [done|]. split; [lia|]. by apply blocked_test_false.
  - rewrite <- candidate_succ by done. intros Hrun.
    apply IH in Hrun as (m & -> & Hblocked & Hfree); [|lia].
    exists (S m). replace (j + Z.of_nat (S m)) with (j + 1 + Z.of_nat m) by lia.
    split; [done|]. split; [|done].
    intros i Hi. destruct (decide (i = j)) as [->|Hne].
    + by apply blocked_test_true.
    + apply Hblocked. lia.
  - intros [= <-]. exists 0%nat. rewrite Z.add_0_r.
    split; [done|]. split; [lia|]. by apply blocked_test_false.
Qed.

Lemma resolve_collision_total :
  exists r, resolve_collision disk file_path p = Some r.
Proof.
  unfold resolve_collision.
  apply (collision_loop_terminates _ disk); [done|lia].
Qed.

Lemma resolve_collision_char (r : string * Z) :
  resolve_collision disk file_path p = Some r ->
  exists m : nat,
    r = (candidate p (Z.of_nat m), Z.of_nat m + 1)
    /\ (forall i, 0 <= i < Z.of_nat m -> blocked disk file_path (candidate p i))
    /\ ~ blocked disk file_path (candidate p (Z.of_nat m)).
Proof.
  unfold resolve_collision. intros H.
  by apply (collision_loop_char _ 0) in H.
Qed.

(** The first free candidate is what the loop returns. *)
Lemma resolve_collision_first_free (m : Z) :
  0 <= m ->
  (forall i, 0 <= i < m -> blocked disk file_path (candidate p i)) ->
  ~ blocked disk file_path (candidate p m) ->
  resolve_collision disk file_path p = Some (candidate p m, m + 1).
Proof.
  intros Hm Hblocked Hfree.
  destruct resolve_collision_total as [r Hr]. rewrite Hr.
  apply resolve_collision_char in Hr as (k & -> & Hkblocked & Hkfree).
  destruct (Z.lt_trichotomy (Z.of_nat k) m) as [Hlt|[<-|Hgt]].
  - destruct Hkfree. apply Hblocked. lia.
  - done.
  - destruct Hfree. apply Hkblocked. lia.
Qed.

End CollisionLoop.

(** ** The episode locator *)

Lemma locate_episode_anime_season (o : Oracles) (show_info : Show.Info) (ds de : Z) :
  Show.is_anime show_info = true -> (locate_episode o show_info ds de).1 = 1.
Proof.
  unfold locate_episode. intros ->.
  destruct (ask_ollama_for_anime_mapping o show_info ds de) as [mapped|]; [|done].
  by destruct (truthy_int (Some mapped)).
Qed.

(** C1. For an anime show whose continuous-mapping inference returns
    nothing usable, the locator sets the final season to 1 and the final
    episode to [detected_episode + (detected_season - 1) * 12] when the
    detected season is above 1, and to [detected_episode] when it is 1. *)
Theorem fallback_arithmetic (o : Oracles) (show_info : Show.Info) (ds de : Z) :
  Show.is_anime show_info = true ->
  ask_ollama_for_anime_mapping o show_info ds de = None ->
  (locate_episode o show_info ds de).1 = 1
  /\ (ds > 1 -> (locate_episode o show_info ds de).2 = de + (ds - 1) * 12)
  /\ (ds = 1 -> (locate_episode o show_info ds de).2 = de).
Proof.
  intros Hanime Hnone. unfold locate_episode. rewrite Hanime, Hnone. simpl.
  unfold fallback_episode. split; [done|]. split; intros Hds.
  - destruct (Z.gtb_spec ds 1); [done|lia].
  - destruct (Z.gtb_spec ds 1); [lia|done].
Qed.

Lemma fallback_arithmetic_witness :
  let o := Sample.oracles true Sample.no_titles (Some (2, 3)) TimeoutExpired true in
  let show_info := Sample.show "Sample Anime" true in
  ask_ollama_for_anime_mapping o show_info 2 3 = None
  /\ locate_episode o show_info 2 3 = (1, 15).
Proof.
  intros o show_info. split; [reflexivity|].
  destruct (fallback_arithmetic o show_info 2 3 eq_refl eq_refl) as (H1 & H2 & _).
  rewrite (surjective_pairing (locate_episode o show_info 2 3)), H1, H2 by lia.
  reflexivity.
Defined.

(** C2. For a show that is not anime, resolution is the identity: the
    locator returns the detected pair, the title lookup leaves it alone,
    and the pair that goes into the name is the detected pair. *)
Theorem non_anime_identity (o : Oracles) (show_name : string)
    (show_info : Show.Info) (ds de : Z) :
  Show.is_anime show_info = false ->
  locate_episode o show_info ds de = (ds, de)
  /\ (lookup_title o show_name (Show.is_anime show_info) ds de
        (locate_episode o show_info ds de)).1 = (ds, de)
  /\ forall file_path pl,
       extract_episode_info o (name file_path) = Some (ds, de) ->
       plan_file o show_name show_info file_path = Some pl ->
       final_season (parts pl) = ds /\ final_episode (parts pl) = de.
Proof.
  intros Hanime.
  assert (locate_episode o show_info ds de = (ds, de)) as Hloc.
  { unfold locate_episode. by rewrite Hanime. }
  assert ((lookup_title o show_name (Show.is_anime show_info) ds de
             (locate_episode o show_info ds de)).1 = (ds, de)) as Htitle.
  { rewrite Hloc, Hanime. unfold lookup_title.
    rewrite andb_false_r. simpl. done. }
  split; [done|]. split; [done|].
  intros file_path pl Hguess. unfold plan_file. rewrite Hguess.
  destruct (lookup_title _ _ _ _ _ _) as [[fs fe] t] eqn:Hlookup.
  simpl in Htitle. injection Htitle as -> ->.
  by intros [= <-].
Qed.

Lemma non_anime_identity_witness :
  let o := Sample.oracles false Sample.the_return (Some (2, 5)) TimeoutExpired true in
  let show_info := Sample.show "Example Show" false in
  locate_episode o show_info 2 5 = (2, 5).
Proof.
  intros o show_info.
  exact (proj1 (non_anime_identity o "Example Show" show_info 2 5 eq_refl)).
Defined.

(** ** The title lookup and its retry *)



(** C9. For an anime file whose title lookup fails both at season 1 with
    the continuous episode and at the detected pair, the pair that goes
    into the name is the detected pair, with the generic title. *)
Theorem no_title_reverts (o : Oracles) (show_name : string)
    (show_info : Show.Info) (ds de : Z) :
  Show.is_anime show_info = true ->
  truthy_str (get_episode_title o show_name 1 (locate_episode o show_info ds de).2) = false ->
  truthy_str (get_episode_title o show_name ds de) = false ->
  lookup_title o show_name (Show.is_anime show_info) ds de
    (locate_episode o show_info ds de) = (ds, de, str de)
  /\ forall file_path pl,
       extract_episode_info o (name file_path) = Some (ds, de) ->
       plan_file o show_name show_info file_path = Some pl ->
       final_season (parts pl) = ds /\ final_episode (parts pl) = de.
Proof.
  intros Hanime Hfirst Hsecond.
  assert (lookup_title o show_name (Show.is_anime show_info) ds de
            (locate_episode o show_info ds de) = (ds, de, str de)) as Hlookup.
  { pose proof (locate_episode_anime_season o show_info ds de Hanime) as Hseason.
    destruct (locate_episode o show_info ds de) as [fs fe]. simpl in *. subst fs.
    unfold lookup_title. rewrite Hanime, Hfirst, Hsecond. simpl.
    by rewrite Hsecond. }
  split; [done|].
  intros file_path pl Hguess. unfold plan_file. rewrite Hguess, Hlookup.
  by intros [= <-].
Qed.

Lemma no_title_reverts_witness :
  lookup_title
    (Sample.oracles true Sample.no_titles (Some (2, 3)) (Completed 0 "15" "") true)
    "Sample Anime" true 2 3
    (locate_episode
       (Sample.oracles true Sample.no_titles (Some (2, 3)) (Completed 0 "15" "") true)
       (Sample.show "Sample Anime" true) 2 3)
  = (2, 3, "3").
Proof.
  apply (no_title_reverts
           (Sample.oracles true Sample.no_titles (Some (2, 3)) (Completed 0 "15" "") true)
           "Sample Anime" (Sample.show "Sample Anime" true) 2 3);
    reflexivity.
Defined.

(** ** The sanity bound on the inference *)

Lemma parse_anime_mapping_range (result : RunResult) (n : Z) :
  parse_anime_mapping result = Some n -> 1 <= n <= 200.
Proof.
  unfold parse_anime_mapping.
  destruct result as [returncode stdout stderr| |]; try done.
  destruct (negb (returncode =? 0)); [done|].
  destruct (String.eqb _ "UNKNOWN"); [done|].
  destruct (last _) as [num|]; [|done].
  destruct (Z.leb_spec 1 (int num)), (Z.leb_spec (int num) 200); simpl; try done.
  intros [= <-]. lia.
Qed.

(** ** Collisions *)

(** C5. When the base name and the numbered names 1..N-1 are taken by
    other files, N paths in all, and the name numbered N is free, the
    loop returns the name with [_N] right after the title segment (after
    the episode code when there is no title) and before the resolution tag
    and the suffix, and that path is not on the disk. *)
Theorem collision_counter_suffix (disk : gset Path) (file_path : Path)
    (p : NameParts) (N : Z) :
  1 <= N ->
  (forall j, 0 <= j < N -> blocked disk file_path (candidate p j)) ->
  sibling file_path (candidate p N) ∉ disk ->
  base_name p = stem p +:+ tail_of p
  /\ resolve_collision disk file_path p
     = Some (stem p +:+ "_" +:+ str N +:+ tail_of p, N + 1)
  /\ sibling file_path (stem p +:+ "_" +:+ str N +:+ tail_of p) ∉ disk.
Proof.
  intros HN Hblocked Hfree.
  assert (candidate p N = stem p +:+ "_" +:+ str N +:+ tail_of p) as Hname.
  { unfold candidate. destruct (Z.eqb_spec N 0); [lia|]. apply numbered_name_split. }
  rewrite <- Hname. split; [apply base_name_split|]. split; [|done].
  apply resolve_collision_first_free; [lia|done|].
  by intros [Hin _].
Qed.

Lemma collision_counter_suffix_witness :
  resolve_collision
    {[ SampleFiles.original; SampleFiles.canonical; SampleFiles.canonical_1 ]}
    SampleFiles.original SampleFiles.the_return_parts
  = Some ("Example.Show.S02EP005.The.Return_2.1080p.mkv", 3).
Proof.
  apply (collision_counter_suffix
           {[ SampleFiles.original; SampleFiles.canonical; SampleFiles.canonical_1 ]}
           SampleFiles.original SampleFiles.the_return_parts 2).
  - lia.
  - intros j Hj. assert (j = 0 \/ j = 1) as [-> | ->] by lia.
    + split; [apply (bool_decide_unpack _); vm_compute; exact I | discriminate].
    + split; [apply (bool_decide_unpack _); vm_compute; exact I | discriminate].
  - apply (bool_decide_unpack _). vm_compute. exact I.
Defined.

(** Every name the loop returns is free or is the file's own name. *)
Lemma resolve_collision_free (disk : gset Path) (file_path : Path)
    (p : NameParts) (new_name : string) (counter : Z) :
  resolve_collision disk file_path p = Some (new_name, counter) ->
  sibling file_path new_name ∉ disk \/ sibling file_path new_name = file_path.
Proof.
  intros H. apply resolve_collision_char in H as (m & [= -> ->] & _ & Hfree).
  destruct (decide (sibling file_path (candidate p (Z.of_nat m)) ∈ disk)) as [Hin|]; [|by left].
  destruct (decide (sibling file_path (candidate p (Z.of_nat m)) = file_path)); [by right|].
  by destruct Hfree.
Qed.

(** The loop of a file always ends within the fuel it is given. *)
Lemma process_file_finishes (o : Oracles) (dry_run : bool) (show_name : string)
    (show_info : Show.Info) (st : State) (file_path : Path) :
  (process_file o dry_run show_name show_info st file_path).2 <> LoopUnfinished.
Proof.
  unfold process_file.
  destruct (plan_file o show_name show_info file_path) as [pl|]; [|done].
  destruct (resolve_collision_total (disk st) file_path (parts pl)) as [[n c] ->].
  destruct (bool_decide _); [done|].
  destruct dry_run; [done|].
  unfold rename_step. by destruct (os_rename _ _ _).
Qed.

(** ** Files that already carry their name *)




(** ** The log and the rename *)

(** C10. Without dry run, the log entry is appended before the rename is
    tried: when the rename fails, the state is the one with the entry
    appended, the entry records the new name, and the disk is unchanged. *)
Theorem log_kept_on_rename_failure (o : Oracles) (show_name : string)
    (show_info : Show.Info) (st st' : State) (file_path : Path) (failed : string) :
  process_file o false show_name show_info st file_path = (st', RenameFailed failed) ->
  exists pl : Plan,
    plan_file o show_name show_info file_path = Some pl
    /\ st' = append_log st (log_entry (name file_path) pl failed)
    /\ (exists e, log_entries st' = log_entries st ++ [e]
                  /\ original e = name file_path /\ new_name e = failed)
    /\ disk st' = disk st
    /\ process_file o false show_name show_info st file_path
       = rename_step o (append_log st (log_entry (name file_path) pl failed))
           file_path (sibling file_path failed).
Proof.
  intros Hrun. pose proof Hrun as Hkeep. unfold process_file in Hrun.
  destruct (plan_file o show_name show_info file_path) as [pl|] eqn:Hplan; [|done].
  destruct (resolve_collision (disk st) file_path (parts pl)) as [[n c]|] eqn:Hloop; [|done].
  destruct (bool_decide (sibling file_path n = file_path)) eqn:Hsame; [done|].
  unfold rename_step in Hrun.
  destruct (os_rename o file_path (sibling file_path n)) eqn:Hrename; [done|].
  injection Hrun as <- <-. simpl.
  exists pl. split; [done|]. split; [done|]. split; [by eexists|]. split; [done|].
  rewrite Hkeep. unfold rename_step. by rewrite Hrename.
Qed.

Lemma log_kept_on_rename_failure_witness :
  exists pl : Plan,
    plan_file SampleFiles.non_anime_failing_rename "Example Show"
      (Sample.show "Example Show" false) SampleFiles.original = Some pl
    /\ log_entries (append_log (Sample.empty_state [SampleFiles.original])
                      (log_entry (name SampleFiles.original) pl
                         "Example.Show.S02EP005.The.Return.1080p.mkv"))
       = [log_entry (name SampleFiles.original) pl
            "Example.Show.S02EP005.The.Return.1080p.mkv"].
Proof.
  destruct (log_kept_on_rename_failure SampleFiles.non_anime_failing_rename
              "Example Show" (Sample.show "Example Show" false)
              (Sample.empty_state [SampleFiles.original])
              (append_log (Sample.empty_state [SampleFiles.original])
                 {| original := "Example.Show.S02E05.1080p.mkv";
                    detected := "S02E05"; final := "S02E05";
                    new_name := "Example.Show.S02EP005.The.Return.1080p.mkv";
                    title := "The Return" |})
              SampleFiles.original "Example.Show.S02EP005.The.Return.1080p.mkv")
    as (pl & Hplan & _).
  - vm_compute. reflexivity.
  - exists pl. split; [exact Hplan | reflexivity].
Defined.

(** ** The title segment *)

Lemma take_length (n : nat) (s : string) : (String.length (Str.take n s) <= n)%nat.
Proof.
  revert s. induction n as [|n IH]; intros [|c s]; simpl; try lia.
  specialize (IH s). lia.
Qed.

Lemma forallb_take (q : ascii -> bool) (n : nat) (s : string) :
  Str.forallb q s = true -> Str.forallb q (Str.take n s) = true.
Proof.
  revert s. induction n as [|n IH]; intros [|c s]; simpl; try done.
  rewrite !andb_true_iff. intros [Hc Hs]. auto.
Qed.

Lemma forallb_lstrip (q d : ascii -> bool) (s : string) :
  Str.forallb q s = true -> Str.forallb q (Str.lstrip d s) = true.
Proof.
  induction s as [|c s IH]; simpl; [done|].
  destruct (d c); [|done]. rewrite andb_true_iff. intros [_ Hs]. auto.
Qed.

Lemma forallb_rstrip (q d : ascii -> bool) (s : string) :
  Str.forallb q s = true -> Str.forallb q (Str.rstrip d s) = true.
Proof.
  induction s as [|c s IH]; simpl; [done|].
  rewrite andb_true_iff. intros [Hc Hs]. specialize (IH Hs).
  destruct (Str.rstrip d s) as [|c' r].
  - destruct (d c); simpl; [done|]. by rewrite Hc.
  - simpl in *. by rewrite Hc, IH.
Qed.

Lemma forallb_filter (keep : ascii -> bool) (s : string) :
  Str.forallb keep (Str.filter keep s) = true.
Proof.
  induction s as [|c s IH]; simpl; [done|].
  destruct (keep c) eqn:Hc; simpl; [by rewrite Hc|done].
Qed.

Lemma forallb_collapse_ws (in_run : bool) (s : string) :
  Str.forallb (fun c => Chars.is_alnum c || Chars.is_space c) s = true ->
  Str.forallb (fun c => Chars.is_alnum c || Str.is_dot c) (Str.collapse_ws_go in_run s) = true.
Proof.
  revert in_run. induction s as [|c s IH]; intros in_run; simpl; [done|].
  rewrite andb_true_iff. intros [Hc Hs].
  destruct (Chars.is_space c) eqn:Hsp.
  - destruct in_run; simpl; auto.
  - simpl. rewrite orb_false_r in Hc. rewrite Hc. simpl. auto.
Qed.

Lemma rstrip_head (d : ascii -> bool) (s : string) (c : ascii) (r : string) :
  Str.rstrip d s = String c r -> exists r', s = String c r'.
Proof.
  destruct s as [|c' s]; simpl; [done|].
  destruct (Str.rstrip d s).
  - destruct (d c'); [done|]. intros [= <- _]. by eexists.
  - intros [= <- _]. by eexists.
Qed.

Lemma lstrip_head (d : ascii -> bool) (s : string) (c : ascii) (r : string) :
  Str.lstrip d s = String c r -> d c = false.
Proof.
  induction s as [|c' s IH]; simpl; [done|].
  destruct (d c') eqn:Hd; [done|]. by intros [= <- _].
Qed.

Lemma safe_title_of_no_leading_dot (title r : string) :
  safe_title_of title <> String "." r.
Proof.
  unfold safe_title_of, Str.strip. intros H.
  destruct (Str.rstrip _ _) as [|c s] eqn:Hstrip; [done|].
  simpl in H. injection H as -> _.
  apply rstrip_head in Hstrip as [r' Hstrip].
  by apply lstrip_head in Hstrip.
Qed.

Lemma safe_title_of_chars (title : string) :
  Str.forallb (fun c => Chars.is_alnum c || Str.is_dot c) (safe_title_of title) = true.
Proof.
  unfold safe_title_of, Str.strip.
  apply forallb_take, forallb_rstrip, forallb_lstrip, forallb_collapse_ws.
  apply forallb_filter.
Qed.

Lemma title_present_false (p : NameParts) :
  safe_title p = "" \/ safe_title p = str (final_episode p) ->
  title_present (safe_title p) (final_episode p) = false.
Proof.
  unfold title_present. intros [-> | ->]; [done|].
  by rewrite String.eqb_refl, andb_false_r.
Qed.

(** C7 as the code has it.  The sanitized title is the title sanitized
    like a show name, then stripped of dots at both ends, then cut to 50
    characters: it holds only letters, digits and dots and does not start
    with a dot.  When it is empty or is the decimal string of the final
    episode, the base name and every numbered name have no title segment. *)
Theorem title_segment_rule (title : string) (p : NameParts) :
  safe_title p = safe_title_of title ->
  safe_title p = Str.take 50 (Str.strip Str.is_dot (clean_show_name_of title))
  /\ (String.length (safe_title p) <= 50)%nat
  /\ Str.forallb (fun c => Chars.is_alnum c || Str.is_dot c) (safe_title p) = true
  /\ (forall r, safe_title p <> String "." r)
  /\ (safe_title p = "" \/ safe_title p = str (final_episode p) ->
      base_name p
      = clean_show_name p +:+ "." +:+ episode_code (final_season p) (final_episode p)
          +:+ tail_of p
      /\ forall counter,
           numbered_name p counter
           = clean_show_name p +:+ "." +:+ episode_code (final_season p) (final_episode p)
               +:+ "_" +:+ str counter +:+ tail_of p).
Proof.
  intros Hsafe. split; [by rewrite Hsafe|].
  split; [rewrite Hsafe; apply take_length|].
  split; [rewrite Hsafe; apply safe_title_of_chars|].
  split; [intros r; rewrite Hsafe; apply safe_title_of_no_leading_dot|].
  intros Habsent. apply title_present_false in Habsent.
  split; [|intros counter].
  - rewrite base_name_split. unfold stem. rewrite Habsent.
    by rewrite !app_assoc, app_nil_l.
  - rewrite numbered_name_split. unfold stem. rewrite Habsent.
    by rewrite !app_assoc, app_nil_l.
Qed.

Lemma title_segment_rule_witness :
  base_name
    {| clean_show_name := "Example.Show"; final_season := 2; final_episode := 5;
       safe_title := safe_title_of " 5 "; resolution := "1080p"; suffix := ".mkv" |}
  = "Example.Show.S02EP005.1080p.mkv".
Proof.
  refine (proj1 (proj2 (proj2 (proj2 (proj2
            (title_segment_rule " 5 "
               {| clean_show_name := "Example.Show"; final_season := 2;
                  final_episode := 5; safe_title := safe_title_of " 5 ";
                  resolution := "1080p"; suffix := ".mkv" |} eq_refl)))) _)).
  right. reflexivity.
Defined.

(** The specification's sanitizer keeps the dot of a leading white-space
    run; the code strips it. *)
Lemma title_sanitizer_counterexample :
  safe_title_of "- Part 2" = "Part.2"
  /\ spec_safe_title_of "- Part 2" = ".Part.2"
  /\ safe_title_of "- Part 2" <> spec_safe_title_of "- Part 2".
Proof. split; [reflexivity|]. split; [reflexivity|]. discriminate. Qed.

(** ** The resolution tag *)

Lemma digits_p_prefix (n : nat) (s m : string) :
  ResRegex.digits_p n s = Some m -> m <> "" /\ exists rest, s = m +:+ rest.
Proof.
  revert s m. induction n as [|n IH]; intros [|c s] m; simpl; try done.
  - destruct (Ascii.eqb _ _); [|done]. intros [= <-]. split; [done|by exists s].
  - destruct (Chars.is_digit c); [|done].
    destruct (ResRegex.digits_p n s) as [m'|] eqn:Hm; [|done].
    intros [= <-]. split; [done|].
    destruct (IH _ _ Hm) as [_ [rest ->]]. by exists rest.
Qed.

Lemma two_four_k_prefix (s m : string) :
  ResRegex.two_four_k s = Some m -> m <> "" /\ exists rest, s = m +:+ rest.
Proof.
  destruct s as [|a [|b s]]; simpl; try done.
  destruct (_ && _); [|done]. intros [= <-]. split; [done|by exists s].
Qed.

Lemma match_at_prefix (s m : string) :
  ResRegex.match_at s = Some m -> m <> "" /\ exists rest, s = m +:+ rest.
Proof.
  unfold ResRegex.match_at.
  destruct (ResRegex.digits_p 4 s) eqn:H4.
  { intros [= <-]. by apply digits_p_prefix in H4. }
  destruct (ResRegex.digits_p 3 s) eqn:H3.
  { intros [= <-]. by apply digits_p_prefix in H3. }
  apply two_four_k_prefix.
Qed.

Lemma search_substring (s m : string) :
  ResRegex.search s = Some m ->
  m <> "" /\ exists before rest, s = before +:+ m +:+ rest.
Proof.
  induction s as [|c s IH]; simpl.
  - done.
  - destruct (ResRegex.match_at (String c s)) eqn:Hm.
    + intros [= <-]. apply match_at_prefix in Hm as [Hne [rest ->]].
      split; [done|]. by exists "", rest.
    + intros Hs. destruct (IH Hs) as [Hne (before & rest & ->)].
      split; [done|]. by exists (String c before), rest.
Qed.

Lemma lower_nonempty (s : string) : s <> "" -> Str.nonempty (Str.lower s) = true.
Proof. by destruct s. Qed.

Lemma lower_no_upper (s : string) :
  Str.forallb (fun c => negb (Chars.is_upper c)) s = true -> Str.lower s = s.
Proof.
  induction s as [|c s IH]; simpl; [done|].
  rewrite andb_true_iff, negb_true_iff. intros [Hc Hs].
  unfold Str.lower in *. simpl. unfold Chars.lower at 1. by rewrite Hc, IH.
Qed.

Lemma lower_changes_upper (c : ascii) : Chars.is_upper c = true -> Chars.lower c <> c.
Proof.
  unfold Chars.lower, Chars.is_upper, Chars.between. intros Hupper. rewrite Hupper.
  apply andb_true_iff in Hupper as [Hlo Hhi].
  apply Nat.leb_le in Hlo, Hhi. intros Heq.
  apply (f_equal nat_of_ascii) in Heq.
  rewrite nat_ascii_embedding in Heq by (unfold Chars.code in *; lia).
  unfold Chars.code in *. lia.
Qed.

Lemma lower_fixed_no_upper (s : string) :
  Str.lower s = s -> Str.forallb (fun c => negb (Chars.is_upper c)) s = true.
Proof.
  induction s as [|c s IH]; [done|].
  unfold Str.lower. simpl. intros Heq. injection Heq as Hc Hs.
  rewrite (IH Hs), andb_true_r.
  destruct (Chars.is_upper c) eqn:Hupper; [|done].
  by apply lower_changes_upper in Hupper.
Qed.

(** C8 as the code has it.  The tag the pattern finds in the file name is
    a piece of that name; it goes into the base name and into every
    numbered name in lower case, right before the suffix, and it is
    unchanged exactly when it has no capital letter to begin with. *)
Theorem resolution_tag_lowercased (filename tag : string) (p : NameParts) :
  ResRegex.search filename = Some tag ->
  resolution p = resolution_of filename ->
  (exists before rest, filename = before +:+ tag +:+ rest)
  /\ resolution p = Str.lower tag
  /\ base_name p = stem p +:+ "." +:+ Str.lower tag +:+ suffix p
  /\ (forall counter,
        numbered_name p counter
        = stem p +:+ "_" +:+ str counter +:+ "." +:+ Str.lower tag +:+ suffix p)
  /\ (resolution p = tag
      <-> Str.forallb (fun c => negb (Chars.is_upper c)) tag = true).
Proof.
  intros Hsearch Hres.
  destruct (search_substring _ _ Hsearch) as [Hne Hsub].
  assert (resolution p = Str.lower tag) as Hlow.
  { rewrite Hres. unfold resolution_of. by rewrite Hsearch. }
  assert (tail_of p = "." +:+ Str.lower tag +:+ suffix p) as Htail.
  { unfold tail_of. rewrite Hlow, lower_nonempty by done. by rewrite app_assoc. }
  split; [done|]. split; [done|].
  split; [by rewrite base_name_split, Htail|].
  split; [intros counter; by rewrite numbered_name_split, Htail|].
  rewrite Hlow. split; [apply lower_fixed_no_upper|apply lower_no_upper].
Qed.

Lemma resolution_tag_lowercased_witness :
  base_name
    {| clean_show_name := "Example.Show"; final_season := 2; final_episode := 5;
       safe_title := "The.Return";
       resolution := resolution_of "Example.Show.S02E05.1080P.mkv";
       suffix := ".mkv" |}
  = "Example.Show.S02EP005.The.Return.1080p.mkv".
Proof.
  exact (proj1 (proj2 (proj2
           (resolution_tag_lowercased "Example.Show.S02E05.1080P.mkv" "1080P"
              {| clean_show_name := "Example.Show"; final_season := 2;
                 final_episode := 5; safe_title := "The.Return";
                 resolution := resolution_of "Example.Show.S02E05.1080P.mkv";
                 suffix := ".mkv" |} eq_refl eq_refl)))).
Defined.

(** A tag written with a capital letter does not reach the new name as it
    was. *)
Lemma resolution_tag_counterexample :
  ResRegex.search "Example.Show.S02E05.1080P.mkv" = Some "1080P"
  /\ resolution_of "Example.Show.S02E05.1080P.mkv" = "1080p"
  /\ resolution_of "Example.Show.S02E05.1080P.mkv" <> "1080P".
Proof. split; [reflexivity|]. split; [reflexivity|]. discriminate. Qed.

(** ** Runs on sample files *)

Example sanitize_examples :
  safe_title_of "The Return" = "The.Return"
  /\ safe_title_of " Arc  Two: Begins! " = "Arc.Two.Begins"
  /\ clean_show_name_of "Example Show" = "Example.Show".
Proof. repeat split. Qed.

Example format_d_examples :
  (format_d 2 5, format_d 3 15, format_d 2 123, format_d 3 (-5))
  = ("05", "015", "123", "-05").
Proof. reflexivity. Qed.

Example findall_numbers_example :
  findall_numbers "Episode 15 is 3x 20_ 7 -5 a1 8" = ["15"; "7"; "5"; "8"].
Proof. reflexivity. Qed.

Example parse_anime_mapping_examples :
  parse_anime_mapping (Completed 0 "  The answer is 15 " "") = Some 15
  /\ parse_anime_mapping (Completed 0 "300" "") = None
  /\ parse_anime_mapping (Completed 0 "0" "") = None
  /\ parse_anime_mapping (Completed 0 "UNKNOWN" "") = None
  /\ parse_anime_mapping (Completed 1 "15" "") = None.
Proof. repeat split. Qed.

Example resolution_of_examples :
  resolution_of "x.4K.mkv" = "4k"
  /\ resolution_of "x.12345p.mkv" = "2345p"
  /\ resolution_of "Example.Show.S02EP005.Pilot.mkv" = "".
Proof. repeat split. Qed.

Example suffix_of_examples :
  suffix_of "Example.Show.S02E05.1080p.mkv" = ".mkv"
  /\ suffix_of ".hidden" = "" /\ suffix_of "name." = "" /\ suffix_of "plain" = "".
Proof. repeat split. Qed.

(** A regular show: the detected pair, the title and the tag go into the
    name. *)
Example regular_show_run :
  process_file SampleFiles.non_anime false "Example Show"
    (Sample.show "Example Show" false)
    (Sample.empty_state [SampleFiles.original]) SampleFiles.original
  = ({| disk := {[ SampleFiles.canonical ]};
        log_entries :=
          [{| original := "Example.Show.S02E05.1080p.mkv";
              detected := "S02E05"; final := "S02E05";
              new_name := "Example.Show.S02EP005.The.Return.1080p.mkv";
              title := "The Return" |}] |},
     Renamed "Example.Show.S02EP005.The.Return.1080p.mkv").
Proof. vm_compute. reflexivity. Qed.

(** An anime file without usable inference whose title is found at the
    continuous number keeps season 1 and episode 15. *)
Example anime_fallback_run :
  (process_file
     (Sample.oracles true
        (fun season episode =>
           if (season =? 1) && (episode =? 15) then Some "Fifteen" else None)
        (Some (2, 3)) TimeoutExpired true)
     true "Sample Anime" (Sample.show "Sample Anime" true)
     (Sample.empty_state [("/tv/Sample Anime", "sample s2e3.mkv")])
     ("/tv/Sample Anime", "sample s2e3.mkv")).2
  = Previewed "Sample.Anime.S01EP015.Fifteen.mkv".
Proof. vm_compute. reflexivity. Qed.

(** The same file when only the detected pair has a title: the name goes
    back to season 2, episode 3. *)
Example anime_retry_run :
  (process_file
     (Sample.oracles true Sample.arc_two_titles (Some (2, 3)) (Completed 0 "15" "") true)
     true "Sample Anime" (Sample.show "Sample Anime" true)
     (Sample.empty_state [("/tv/Sample Anime", "sample s2e3.mkv")])
     ("/tv/Sample Anime", "sample s2e3.mkv")).2
  = Previewed "Sample.Anime.S02EP003.Arc.Two.Begins.mkv".
Proof. vm_compute. reflexivity. Qed.

(** And when no title is found at all: the detected pair, no title
    segment. *)
Example anime_no_title_run :
  (process_file
     (Sample.oracles true Sample.no_titles (Some (2, 3)) TimeoutExpired true)
     true "Sample Anime" (Sample.show "Sample Anime" true)
     (Sample.empty_state [("/tv/Sample Anime", "sample s2e3.mkv")])
     ("/tv/Sample Anime", "sample s2e3.mkv")).2
  = Previewed "Sample.Anime.S02EP003.mkv".
Proof. vm_compute. reflexivity. Qed.

(** The tag is read from the whole file name.  A title that holds
    something shaped like a tag is therefore read back as the tag on a
    second pass, which is why [second_pass_no_rename] asks that the tag
    read from the new name be the tag read from the old one. *)
Example tag_read_from_title :
  let o := Sample.oracles false (fun _ _ => Some "4k Remaster") (Some (1, 1))
             TimeoutExpired true in
  let show_info := Sample.show "Show" false in
  (process_file o true "Show" show_info
     (Sample.empty_state [("/tv/Show", "a.mkv")]) ("/tv/Show", "a.mkv")).2
  = Previewed "Show.S01EP001.4k.Remaster.mkv"
  /\ (process_file o true "Show" show_info
        (Sample.empty_state [("/tv/Show", "Show.S01EP001.4k.Remaster.mkv")])
        ("/tv/Show", "Show.S01EP001.4k.Remaster.mkv")).2
     = Previewed "Show.S01EP001.4k.Remaster.4k.mkv".
Proof. vm_compute. split; reflexivity. Qed.

(** A whole show: three files, the third without an episode guess. *)
Example rename_show_files_run :
  log_entries
    (rename_show_files
       {| get_show_info := fun show_name => Some (Sample.show show_name false);
          episode_details_name := fun _ _ _ => Some "The Return";
          extract_episode_info := fun filename =>
            if String.eqb filename "notes.mkv" then None else Some (2, 5);
          ollama_run_mapping := fun _ _ _ => TimeoutExpired;
          os_rename := fun _ _ => true |}
       "Example Show"
       [(Sample.folder, "a.1080p.mkv"); (Sample.folder, "b.1080p.mkv");
        (Sample.folder, "notes.mkv")]
       false
       (list_to_set [(Sample.folder, "a.1080p.mkv"); (Sample.folder, "b.1080p.mkv");
                     (Sample.folder, "notes.mkv")]))
  = [{| original := "a.1080p.mkv"; detected := "S02E05"; final := "S02E05";
        new_name := "Example.Show.S02EP005.The.Return.1080p.mkv";
        title := "The Return" |};
     {| original := "b.1080p.mkv"; detected := "S02E05"; final := "S02E05";
        new_name := "Example.Show.S02EP005.The.Return_1.1080p.mkv";
        title := "The Return" |}].
Proof. vm_compute. reflexivity. Qed.

(** * Further properties of the code *)

(** ** What a pass does to the disk *)

Lemma process_file_dry_run_disk (o : Oracles) (show_name : string)
    (show_info : Show.Info) (st : State) (file_path : Path) :
  disk (process_file o true show_name show_info st file_path).1 = disk st.
Proof.
  unfold process_file.
  destruct (plan_file o show_name show_info file_path) as [pl|]; [|done].
  destruct (resolve_collision (disk st) file_path (parts pl)) as [[n c]|]; [|done].
  by destruct (bool_decide _).
Qed.

(** With [dry_run] set, a whole show is processed without any change to
    the files on the disk, whatever the collaborators answer. *)
Theorem dry_run_keeps_disk (o : Oracles) (show_name : string)
    (files : list Path) (disk0 : gset Path) :
  disk (rename_show_files o show_name files true disk0) = disk0.
Proof.
  unfold rename_show_files.
  destruct (get_show_info o show_name) as [show_info|]; [|done].
  generalize (@nil LogEntry). revert disk0.
  induction files as [|f files IH]; intros disk0 entries; [done|].
  simpl.
  pose proof (process_file_dry_run_disk o show_name show_info
                {| disk := disk0; log_entries := entries |} f) as Hstep.
  destruct (process_file o true show_name show_info
              {| disk := disk0; log_entries := entries |} f) as [[disk1 entries1] out].
  simpl in *. subst disk1. apply IH.
Qed.

Lemma move_tree_plain (p p' : Path) (disk : gset Path) :
  p ∈ disk ->
  (forall q, q ∈ disk -> below p q = false) ->
  move_tree p p' disk = {[ p' ]} ∪ (disk ∖ {[ p ]}).
Proof.
  intros Hp Hplain. apply set_eq. intros y. unfold move_tree.
  rewrite elem_of_map, elem_of_union, elem_of_singleton, elem_of_difference,
    elem_of_singleton.
  split.
  - intros (q & -> & Hq). destruct (bool_decide_reflect (q = p)) as [->|Hne]; [by left|].
    rewrite (Hplain q Hq). by right.
  - intros [->|[Hy Hne]].
    + exists p. by rewrite bool_decide_eq_true_2.
    + exists y. rewrite bool_decide_eq_false_2 by done. by rewrite (Hplain y Hy).
Qed.

(** A rename of a plain file, one with nothing below it on the disk, that
    goes through moves exactly one path: the target was not on the disk
    before (nothing is overwritten), it differs from the source, every
    other path stays, the number of files is kept, and the disk is what
    moving the path with everything below it gives. *)
Theorem rename_moves_one_file (o : Oracles) (dry_run : bool) (show_name : string)
    (show_info : Show.Info) (st st' : State) (file_path : Path) (renamed : string) :
  process_file o dry_run show_name show_info st file_path = (st', Renamed renamed) ->
  (forall q, q ∈ disk st -> below file_path q = false) ->
  dry_run = false
  /\ (sibling file_path renamed ∉ disk st)
  /\ sibling file_path renamed <> file_path
  /\ disk st' = {[ sibling file_path renamed ]} ∪ (disk st ∖ {[ file_path ]})
  /\ (forall q, q <> file_path -> q <> sibling file_path renamed ->
        (q ∈ disk st' <-> q ∈ disk st))
  /\ (file_path ∈ disk st ->
      size (disk st') = size (disk st)
      /\ disk st' = move_tree file_path (sibling file_path renamed) (disk st)).
Proof.
  unfold process_file. intros Hrun Hplain.
  destruct (plan_file o show_name show_info file_path) as [pl|]; [|done].
  destruct (resolve_collision (disk st) file_path (parts pl)) as [[n c]|] eqn:Hloop; [|done].
  destruct (bool_decide (sibling file_path n = file_path)) eqn:Hsame; [done|].
  apply bool_decide_eq_false in Hsame.
  destruct dry_run; [done|]. unfold rename_step in Hrun.
  destruct (os_rename o file_path (sibling file_path n)); [|done].
  injection Hrun as <- <-. simpl.
  apply resolve_collision_free in Hloop as [Hfree|Hown]; [|done].
  split; [done|]. split; [done|]. split; [done|]. split; [done|].
  split.
  { intros q Hq1 Hq2. rewrite elem_of_union, elem_of_singleton, elem_of_difference,
      elem_of_singleton. tauto. }
  intros Hin. split; [|by rewrite move_tree_plain].
  rewrite size_union.
  2:{ apply disjoint_singleton_l. rewrite elem_of_difference. tauto. }
  rewrite size_singleton, size_difference by (by apply singleton_subseteq_l).
  rewrite size_singleton.
  assert (size (disk st) <> 0)%nat; [|lia].
  intros Hz. apply size_empty_iff in Hz. by apply (not_elem_of_empty (C:=gset Path) file_path), Hz.
Qed.

Lemma rename_moves_one_file_witness :
  (SampleFiles.canonical ∉ disk (Sample.empty_state [SampleFiles.original]))
  /\ disk (process_file SampleFiles.non_anime false "Example Show"
             (Sample.show "Example Show" false)
             (Sample.empty_state [SampleFiles.original]) SampleFiles.original).1
     = {[ SampleFiles.canonical ]} ∪
       (disk (Sample.empty_state [SampleFiles.original]) ∖ {[ SampleFiles.original ]}).
Proof.
  destruct (rename_moves_one_file SampleFiles.non_anime false "Example Show"
              (Sample.show "Example Show" false)
              (Sample.empty_state [SampleFiles.original])
              (process_file SampleFiles.non_anime false "Example Show"
                 (Sample.show "Example Show" false)
                 (Sample.empty_state [SampleFiles.original]) SampleFiles.original).1
              SampleFiles.original "Example.Show.S02EP005.The.Return.1080p.mkv")
    as (_ & Hfree & _ & Hdisk & _).
  - vm_compute. reflexivity.
  - intros q Hq. apply elem_of_list_to_set, list_elem_of_singleton in Hq as ->.
    reflexivity.
  - split; [exact Hfree | exact Hdisk].
Defined.

(** A folder with a video suffix is renamed like a file (line 296 does not
    ask whether the path is a file), and what is in it moves with it. *)
Example move_tree_folder :
  move_tree ("/tv", "Extras.Old.mkv") ("/tv", "Example.Show.S02EP005.mkv")
    {[ ("/tv", "Extras.Old.mkv"); ("/tv/Extras.Old.mkv", "inner.txt");
       ("/tv/Extras.Old.mkv/deep", "x.txt"); ("/tv/Extras.Old.mkv2", "other.txt") ]}
  = {[ ("/tv", "Example.Show.S02EP005.mkv");
       ("/tv/Example.Show.S02EP005.mkv", "inner.txt");
       ("/tv/Example.Show.S02EP005.mkv/deep", "x.txt");
       ("/tv/Extras.Old.mkv2", "other.txt") ]}.
Proof. apply (bool_decide_unpack _). vm_compute. exact I. Qed.

(** ** What a pass writes to the log *)

Lemma process_file_log (o : Oracles) (dry_run : bool) (show_name : string)
    (show_info : Show.Info) (st : State) (file_path : Path) :
  let st' := (process_file o dry_run show_name show_info st file_path).1 in
  log_entries st' = log_entries st
  \/ exists e, log_entries st' = log_entries st ++ [e] /\ original e = name file_path.
Proof.
  unfold process_file.
  destruct (plan_file o show_name show_info file_path) as [pl|]; [|by left].
  destruct (resolve_collision (disk st) file_path (parts pl)) as [[n c]|]; [|by left].
  destruct (bool_decide _); [by left|].
  right. destruct dry_run; simpl; [by eexists|].
  unfold rename_step. destruct (os_rename _ _ _); simpl; by eexists.
Qed.

Lemma log_originals_sublist (o : Oracles) (show_name : string)
    (files : list Path) (dry_run : bool) (disk0 : gset Path) :
  original <$> log_entries (rename_show_files o show_name files dry_run disk0)
  `sublist_of` name <$> files.
Proof.
  unfold rename_show_files.
  destruct (get_show_info o show_name) as [show_info|]; [|apply sublist_nil_l].
  assert (forall st : State,
            exists added,
              log_entries (foldl (fun st file_path =>
                 (process_file o dry_run show_name show_info st file_path).1) st files)
              = log_entries st ++ added
              /\ original <$> added `sublist_of` name <$> files) as Hgen.
  { induction files as [|f files IH]; intros st; simpl.
    - exists []. by rewrite List.app_nil_r.
    - destruct (IH (process_file o dry_run show_name show_info st f).1)
        as (added & -> & Hadded).
      destruct (process_file_log o dry_run show_name show_info st f)
        as [-> | (e & -> & He)].
      + exists added. split; [done|]. by apply sublist_cons.
      + exists (e :: added). rewrite <- List.app_assoc. split; [done|].
        rewrite fmap_cons, He. by apply sublist_skip. }
  destruct (Hgen {| disk := disk0; log_entries := [] |}) as (added & -> & Hadded).
  done.
Qed.

(** The log of a show holds at most one entry per file, in the order of
    the files, each under the name the file had: the originals of the log
    are a sublist of the names of the files. *)
Theorem log_follows_files (o : Oracles) (show_name : string)
    (files : list Path) (dry_run : bool) (disk0 : gset Path) :
  let entries := log_entries (rename_show_files o show_name files dry_run disk0) in
  original <$> entries `sublist_of` name <$> files
  /\ (length entries <= length files)%nat.
Proof.
  pose proof (log_originals_sublist o show_name files dry_run disk0) as Hsub.
  split; [done|].
  apply sublist_length in Hsub. by rewrite !length_fmap in Hsub.
Qed.

(** ** The shape of a new name *)

Lemma candidate_shape (p : NameParts) (j : Z) :
  exists middle,
    candidate p j
    = clean_show_name p +:+ ".S" +:+ format_d 2 (final_season p) +:+ "EP"
        +:+ format_d 3 (final_episode p) +:+ middle +:+ suffix p.
Proof.
  set (title_part := if title_present (safe_title p) (final_episode p)
                     then "." +:+ safe_title p else "").
  set (tag_part := if Str.nonempty (resolution p) then "." +:+ resolution p else "").
  unfold candidate. destruct (j =? 0).
  - exists (title_part +:+ tag_part).
    rewrite base_name_split. unfold stem, tail_of, episode_code.
    fold title_part tag_part. rewrite !app_assoc. reflexivity.
  - exists (title_part +:+ "_" +:+ str j +:+ tag_part).
    rewrite numbered_name_split. unfold stem, tail_of, episode_code.
    fold title_part tag_part. rewrite !app_assoc. reflexivity.
Qed.

(** Every name the loop body arrives at, whether the file is renamed,
    previewed or fails to be renamed, starts with the cleaned show name
    and the episode code of the pair in the log entry, and ends with the
    suffix of the old name: the extension of a file is never changed. *)
Theorem new_name_shape (o : Oracles) (dry_run : bool) (show_name : string)
    (show_info : Show.Info) (st st' : State) (file_path : Path)
    (out : Outcome) (n : string) :
  process_file o dry_run show_name show_info st file_path = (st', out) ->
  out = Renamed n \/ out = Previewed n \/ out = RenameFailed n ->
  exists pl middle,
    plan_file o show_name show_info file_path = Some pl
    /\ n = clean_show_name_of show_name +:+ ".S"
           +:+ format_d 2 (final_season (parts pl)) +:+ "EP"
           +:+ format_d 3 (final_episode (parts pl))
           +:+ middle +:+ suffix_of (name file_path).
Proof.
  unfold process_file. intros Hrun Hout.
  destruct (plan_file o show_name show_info file_path) as [pl|] eqn:Hplan.
  2:{ injection Hrun as _ <-. by destruct Hout as [|[|]]. }
  destruct (resolve_collision (disk st) file_path (parts pl)) as [[n' c]|] eqn:Hloop.
  2:{ injection Hrun as _ <-. by destruct Hout as [|[|]]. }
  apply resolve_collision_char in Hloop as (m & [= -> ->] & _ & _).
  assert (n = candidate (parts pl) (Z.of_nat m)) as ->.
  { destruct (bool_decide _).
    - injection Hrun as _ <-. by destruct Hout as [|[|]].
    - destruct dry_run.
      + injection Hrun as _ <-. by destruct Hout as [|[[= ->]|]].
      + unfold rename_step in Hrun. destruct (os_rename _ _ _);
          injection Hrun as _ <-; simpl in Hout.
        * by destruct Hout as [[= ->]|[|]].
        * by destruct Hout as [|[|[= ->]]]. }
  destruct (candidate_shape (parts pl) (Z.of_nat m)) as [middle Hshape].
  exists pl, middle. split; [done|]. rewrite Hshape.
  unfold plan_file in Hplan.
  destruct (extract_episode_info o (name file_path)) as [[ds de]|]; [|done].
  destruct (lookup_title _ _ _ _ _ _) as [[fs fe] t].
  by injection Hplan as <-.
Qed.

Lemma new_name_shape_witness :
  exists pl middle,
    plan_file SampleFiles.non_anime "Example Show"
      (Sample.show "Example Show" false) SampleFiles.original = Some pl
    /\ "Example.Show.S02EP005.The.Return.1080p.mkv"
       = clean_show_name_of "Example Show" +:+ ".S"
           +:+ format_d 2 (final_season (parts pl)) +:+ "EP"
           +:+ format_d 3 (final_episode (parts pl))
           +:+ middle +:+ suffix_of (name SampleFiles.original).
Proof.
  apply (new_name_shape SampleFiles.non_anime true "Example Show"
           (Sample.show "Example Show" false)
           (Sample.empty_state [SampleFiles.original])
           (process_file SampleFiles.non_anime true "Example Show"
              (Sample.show "Example Show" false)
              (Sample.empty_state [SampleFiles.original]) SampleFiles.original).1
           SampleFiles.original
           (Previewed "Example.Show.S02EP005.The.Return.1080p.mkv")).
  - vm_compute. reflexivity.
  - right. left. reflexivity.
Defined.

(** ** The collision loop in general *)

Lemma collision_loop_counter (fuel : nat) (disk : gset Path) (file_path : Path)
    (p : NameParts) :
  forall (new_name : string) (counter : Z) (n : string) (c : Z),
    collision_loop fuel disk file_path p new_name counter = Some (n, c) ->
    counter <= c <= counter + Z.of_nat fuel.
Proof.
  induction fuel as [|fuel IH]; intros new_name counter n c;
    rewrite collision_loop_unfold; destruct (blocked_test _ _ _); try done.
  - intros [= _ <-]. lia.
  - intros H. apply IH in H. lia.
  - intros [= _ <-]. lia.
Qed.

(** Whatever is on the disk, the loop ends; the name it ends on is free or
    is the name the file already has, and it has tried at most one
    numbered name per path on the disk, plus one. *)
Theorem collision_always_resolved (disk : gset Path) (file_path : Path)
    (p : NameParts) :
  exists n c,
    resolve_collision disk file_path p = Some (n, c)
    /\ (sibling file_path n ∉ disk \/ sibling file_path n = file_path)
    /\ 1 <= c <= Z.of_nat (size disk) + 2.
Proof.
  destruct (resolve_collision_total disk file_path p) as [[n c] Hloop].
  exists n, c. split; [done|]. split; [by eapply resolve_collision_free|].
  unfold resolve_collision in Hloop. apply collision_loop_counter in Hloop. lia.
Qed.

(** ** A second pass *)


(** ** The episode guess *)

Lemma parse_episode_info_bounds (result : RunResult) (season episode : Z) :
  parse_episode_info result = Some (season, episode) ->
  1 <= season <= 20 /\ 1 <= episode <= 50.
Proof.
  unfold parse_episode_info.
  destruct result as [returncode stdout stderr| |]; try done.
  destruct (negb (returncode =? 0)); [done|].
  destruct (String.eqb _ "NONE"); [done|].
  destruct (EpRegex.search _) as [[g1 g2]|]; [|done].
  destruct (Z.leb_spec 1 (int g1)), (Z.leb_spec (int g1) 20),
    (Z.leb_spec 1 (int g2)), (Z.leb_spec (int g2) 50); simpl; try done.
  intros [= <- <-]. lia.
Qed.

(** A guess is only ever returned for a call that ended with code 0, and
    its season is in 1..20 and its episode in 1..50. *)
Theorem episode_guess_in_range (result : RunResult) (season episode : Z) :
  parse_episode_info result = Some (season, episode) ->
  1 <= season <= 20 /\ 1 <= episode <= 50
  /\ exists stdout stderr, result = Completed 0 stdout stderr.
Proof.
  unfold parse_episode_info.
  destruct result as [returncode stdout stderr| |]; try done.
  destruct (Z.eqb_spec returncode 0) as [->|]; simpl; [|done].
  destruct (String.eqb _ "NONE"); [done|].
  destruct (EpRegex.search _) as [[g1 g2]|]; [|done].
  destruct (Z.leb_spec 1 (int g1)), (Z.leb_spec (int g1) 20),
    (Z.leb_spec 1 (int g2)), (Z.leb_spec (int g2) 50); simpl; try done.
  intros [= <- <-]. split; [lia|]. split; [lia|]. by eexists _, _.
Qed.

Lemma episode_guess_in_range_witness :
  1 <= 2 <= 20 /\ 1 <= 15 <= 50
  /\ exists stdout stderr,
       Completed 0 " The file is s2e15, I think. " "" = Completed 0 stdout stderr.
Proof.
  apply (episode_guess_in_range (Completed 0 " The file is s2e15, I think. " "") 2 15).
  reflexivity.
Defined.

(** An answer in the format the prompt asks for, [S##E##] with both
    numbers in range and padded to two digits, is read back as the pair
    it was written from. *)
Theorem episode_guess_round_trip (season episode : Z) (stderr : string) :
  1 <= season <= 20 ->
  1 <= episode <= 50 ->
  parse_episode_info
    (Completed 0 ("S" +:+ format_d 2 season +:+ "E" +:+ format_d 2 episode) stderr)
  = Some (season, episode).
Proof.
  intros Hs He.
  assert (Forall (fun s => Forall (fun e =>
            parse_episode_info
              (Completed 0 ("S" +:+ format_d 2 s +:+ "E" +:+ format_d 2 e) "")
            = Some (s, e)) (seqZ 1 50)) (seqZ 1 20)) as Hall.
  { apply (bool_decide_unpack _). vm_compute. exact I. }
  rewrite Forall_forall in Hall.
  specialize (Hall season). rewrite elem_of_seqZ in Hall.
  specialize (Hall ltac:(lia)). rewrite Forall_forall in Hall.
  specialize (Hall episode). rewrite elem_of_seqZ in Hall.
  exact (Hall ltac:(lia)).
Qed.

Lemma episode_guess_round_trip_witness :
  parse_episode_info (Completed 0 ("S" +:+ format_d 2 2 +:+ "E" +:+ format_d 2 5) "")
  = Some (2, 5).
Proof. apply (episode_guess_round_trip 2 5 ""); lia. Defined.

(** The examples the prompt itself gives, [S01EP04] and the like, are not
    in that format: an answer [S##EP##] yields no guess, so the file is
    skipped. *)
Theorem episode_guess_rejects_ep_form (season episode : Z) (stderr : string) :
  1 <= season <= 20 ->
  1 <= episode <= 50 ->
  parse_episode_info
    (Completed 0 ("S" +:+ format_d 2 season +:+ "EP" +:+ format_d 2 episode) stderr)
  = None.
Proof.
  intros Hs He.
  assert (Forall (fun s => Forall (fun e =>
            parse_episode_info
              (Completed 0 ("S" +:+ format_d 2 s +:+ "EP" +:+ format_d 2 e) "")
            = None) (seqZ 1 50)) (seqZ 1 20)) as Hall.
  { apply (bool_decide_unpack _). vm_compute. exact I. }
  rewrite Forall_forall in Hall.
  specialize (Hall season). rewrite elem_of_seqZ in Hall.
  specialize (Hall ltac:(lia)). rewrite Forall_forall in Hall.
  specialize (Hall episode). rewrite elem_of_seqZ in Hall.
  exact (Hall ltac:(lia)).
Qed.

Lemma episode_guess_rejects_ep_form_witness :
  parse_episode_info (Completed 0 ("S" +:+ format_d 2 1 +:+ "EP" +:+ format_d 2 4) "")
  = None.
Proof. apply (episode_guess_rejects_ep_form 1 4 ""); lia. Defined.

Example parse_episode_info_examples :
  parse_episode_info (Completed 0 "S01E04" "") = Some (1, 4)
  /\ parse_episode_info (Completed 0 "s2e15" "") = Some (2, 15)
  /\ parse_episode_info (Completed 0 "S123E04" "") = None
  /\ parse_episode_info (Completed 0 "S01E123" "") = Some (1, 12)
  /\ parse_episode_info (Completed 0 "S00E04 or S01E04" "") = None
  /\ parse_episode_info (Completed 0 "S01EP04" "") = None
  /\ parse_episode_info (Completed 0 "NONE" "") = None
  /\ parse_episode_info (Completed 2 "S01E04" "") = None.
Proof. repeat split. Qed.

(** ** The show name of a folder *)

Lemma separators_to_spaces_clean (s : string) :
  Str.forallb (fun c => negb (is_separator c)) (separators_to_spaces s) = true.
Proof.
  induction s as [|c s IH]; simpl; [done|].
  fold (separators_to_spaces s). rewrite IH, andb_true_r.
  by destruct (is_separator c) eqn:Hc; [|rewrite Hc].
Qed.

Lemma squeeze_ws_go_spaced (in_run : bool) (s : string) :
  Str.forallb (fun c => negb (is_separator c)) s = true ->
  spaced in_run (squeeze_ws_go in_run s) = true.
Proof.
  revert in_run. induction s as [|c s IH]; intros in_run; simpl; [done|].
  rewrite andb_true_iff. intros [Hc Hs].
  destruct (Chars.is_space c) eqn:Hsp.
  - destruct in_run; simpl; [by apply IH|]. by apply IH.
  - simpl. rewrite Hsp, Hc. simpl. by apply IH.
Qed.

Lemma lstrip_spaced (b b' : bool) (s : string) :
  spaced b s = true -> spaced b' (Str.lstrip Chars.is_space s) = true.
Proof.
  revert b. induction s as [|c s IH]; intros b; simpl; [done|].
  destruct (Chars.is_space c) eqn:Hsp.
  - rewrite !andb_true_iff. intros [_ Hs]. by eapply IH.
  - simpl. by rewrite Hsp.
Qed.

Lemma lstrip_not_space (s : string) (c : ascii) (r : string) :
  Str.lstrip Chars.is_space s = String c r -> Chars.is_space c = false.
Proof. apply lstrip_head. Qed.

Lemma single_spaced_cons (b : bool) (c : ascii) (r : string) :
  single_spaced b (String c r)
  = if Chars.is_space c
    then Ascii.eqb c " " && negb b && single_spaced true r
    else negb (is_separator c) && single_spaced false r.
Proof. reflexivity. Qed.

Lemma rstrip_single_spaced (b : bool) (s : string) :
  spaced b s = true ->
  Str.rstrip Chars.is_space s <> "" ->
  single_spaced b (Str.rstrip Chars.is_space s) = true.
Proof.
  revert b. induction s as [|c s IH]; intros b; simpl; [done|].
  destruct (Chars.is_space c) eqn:Hsp.
  - rewrite !andb_true_iff. intros [[Hc Hb] Hs].
    specialize (IH true Hs).
    destruct (Str.rstrip Chars.is_space s) as [|a r]; [done|]. intros _.
    rewrite single_spaced_cons, Hsp, Hc, Hb. by apply IH.
  - rewrite andb_true_iff. intros [Hc Hs].
    specialize (IH false Hs).
    destruct (Str.rstrip Chars.is_space s) as [|a r]; intros _.
    + rewrite single_spaced_cons, Hsp, Hc. done.
    + rewrite single_spaced_cons, Hsp, Hc. by apply IH.
Qed.

Lemma separators_to_spaces_cons (c : ascii) (r : string) :
  separators_to_spaces (String c r)
  = String (if is_separator c then " "%char else c) (separators_to_spaces r).
Proof. reflexivity. Qed.

Lemma single_spaced_no_separator (b : bool) (s : string) :
  single_spaced b s = true -> separators_to_spaces s = s.
Proof.
  revert b. induction s as [|c s IH]; intros b; [done|].
  rewrite single_spaced_cons, separators_to_spaces_cons.
  destruct (Chars.is_space c) eqn:Hsp.
  - rewrite !andb_true_iff. intros [[Hc _] Hs].
    apply Ascii.eqb_eq in Hc. subst c. rewrite (IH true Hs). reflexivity.
  - rewrite andb_true_iff, negb_true_iff. intros [Hc Hs].
    by rewrite Hc, (IH false Hs).
Qed.

Lemma single_spaced_squeeze (b in_run : bool) (s : string) :
  single_spaced b s = true ->
  (in_run = true -> b = true) ->
  squeeze_ws_go in_run s = s.
Proof.
  revert b in_run. induction s as [|c s IH]; intros b in_run; simpl; [done|].
  destruct (Chars.is_space c) eqn:Hsp.
  - rewrite !andb_true_iff, negb_true_iff. intros [[Hc ->] Hs] Hrun.
    destruct in_run; [by specialize (Hrun eq_refl)|].
    apply Ascii.eqb_eq in Hc as ->. f_equal. by apply (IH true).
  - rewrite andb_true_iff. intros [_ Hs] _. f_equal. by apply (IH false).
Qed.

Lemma single_spaced_rstrip (b : bool) (s : string) :
  single_spaced b s = true -> Str.rstrip Chars.is_space s = s.
Proof.
  revert b. induction s as [|c s IH]; intros b; simpl; [done|].
  destruct (Chars.is_space c) eqn:Hsp.
  - rewrite !andb_true_iff. intros [_ Hs]. rewrite (IH true Hs).
    destruct s; [done|done].
  - rewrite andb_true_iff. intros [_ Hs]. rewrite (IH false Hs).
    by destruct s.
Qed.

Lemma tidy_name_fixed (s : string) :
  tidy_name s = true -> detect_show_from_folder s = Some s.
Proof.
  unfold tidy_name, detect_show_from_folder. rewrite andb_true_iff. intros [Hne Hs].
  rewrite (single_spaced_no_separator _ _ Hs).
  unfold squeeze_ws. rewrite (single_spaced_squeeze true false s Hs) by done.
  unfold Str.strip.
  assert (Str.lstrip Chars.is_space s = s) as ->.
  { destruct s as [|c s]; [done|]. simpl in *.
    destruct (Chars.is_space c); [|done]. by rewrite andb_false_r in Hs. }
  rewrite (single_spaced_rstrip _ _ Hs). by rewrite Hne.
Qed.

Lemma detected_name_tidy (folder_name show_name : string) :
  detect_show_from_folder folder_name = Some show_name -> tidy_name show_name = true.
Proof.
  intros Hdetect. unfold detect_show_from_folder in Hdetect.
  destruct (Str.nonempty _) eqn:Hne; [|done]. injection Hdetect as <-.
  unfold tidy_name. rewrite Hne. simpl.
  unfold Str.strip in *. apply rstrip_single_spaced.
  - apply (lstrip_spaced false). apply squeeze_ws_go_spaced, separators_to_spaces_clean.
  - by destruct (Str.rstrip _ _).
Qed.

(** A detected show name is tidy: it is not empty, holds none of [_], [-]
    and [.], and its white space is single spaces between other
    characters.  Detection leaves such a name as it is, so detecting
    twice is detecting once. *)
Theorem detect_show_tidy (folder_name show_name : string) :
  detect_show_from_folder folder_name = Some show_name ->
  tidy_name show_name = true
  /\ detect_show_from_folder show_name = Some show_name.
Proof.
  intros Hdetect. apply detected_name_tidy in Hdetect.
  split; [done|]. by apply tidy_name_fixed.
Qed.

Lemma detect_show_tidy_witness :
  tidy_name "Example Show 2024" = true
  /\ detect_show_from_folder "Example Show 2024" = Some "Example Show 2024".
Proof. apply (detect_show_tidy "__Example.Show - 2024 "). reflexivity. Defined.

Lemma lstrip_empty (q : ascii -> bool) (s : string) :
  Str.lstrip q s = "" <-> Str.forallb q s = true.
Proof.
  induction s as [|c s IH]; simpl; [done|].
  destruct (q c); simpl; [done|]. split; done.
Qed.

Lemma strip_empty (q : ascii -> bool) (s : string) :
  Str.strip q s = "" <-> Str.forallb q s = true.
Proof.
  rewrite <- lstrip_empty. unfold Str.strip. split; [|by intros ->].
  destruct (Str.lstrip q s) as [|c r] eqn:Hl; [done|].
  apply lstrip_head in Hl. simpl. destruct (Str.rstrip q r); [by rewrite Hl|done].
Qed.

Lemma squeeze_ws_go_all_space (in_run : bool) (s : string) :
  Str.forallb Chars.is_space (squeeze_ws_go in_run s) = Str.forallb Chars.is_space s.
Proof.
  revert in_run. induction s as [|c s IH]; intros in_run; simpl; [done|].
  destruct (Chars.is_space c) eqn:Hsp.
  - destruct in_run; simpl; by rewrite IH.
  - simpl. by rewrite Hsp.
Qed.

Lemma separators_to_spaces_all_space (s : string) :
  Str.forallb Chars.is_space (separators_to_spaces s)
  = Str.forallb (fun c => is_separator c || Chars.is_space c) s.
Proof.
  induction s as [|c s IH]; simpl; [done|].
  fold (separators_to_spaces s). rewrite IH. by destruct (is_separator c).
Qed.

(** No show name is detected exactly for the folder names made only of
    [_], [-], [.] and white space, the empty name among them. *)
Theorem detect_show_none (folder_name : string) :
  detect_show_from_folder folder_name = None
  <-> Str.forallb (fun c => is_separator c || Chars.is_space c) folder_name = true.
Proof.
  rewrite <- separators_to_spaces_all_space.
  rewrite <- (squeeze_ws_go_all_space false), <- strip_empty.
  unfold detect_show_from_folder, squeeze_ws.
  destruct (Str.strip _ _); simpl; split; done.
Qed.

Example detect_show_from_folder_examples :
  detect_show_from_folder "Example.Show" = Some "Example Show"
  /\ detect_show_from_folder "The_Wire - Season.1" = Some "The Wire Season 1"
  /\ detect_show_from_folder " - . _ " = None
  /\ detect_show_from_folder "" = None.
Proof. repeat split. Qed.

(** ** The run log *)

Lemma records_write_rename_log (log_file : option Json) (timestamp show_name : string)
    (entries : list LogEntry) :
  records (write_rename_log log_file timestamp show_name entries)
  = records log_file ++ [log_data timestamp show_name entries].
Proof. destruct log_file as [[]|]; reflexivity. Qed.

Lemma rename_show_files_logged_records (o : Oracles) (timestamp show_name : string)
    (files : list Path) (dry_run : bool) (disk0 : gset Path) (log_file : option Json) :
  let after := (rename_show_files_logged o timestamp show_name files dry_run
                  disk0 log_file).2 in
  after = log_file
  \/ exists entries,
       records after = records log_file ++ [log_data timestamp show_name entries]
       /\ entries <> [] /\ (length entries <= length files)%nat.
Proof.
  unfold rename_show_files_logged. simpl.
  pose proof (log_originals_sublist o show_name files dry_run disk0) as Hlen.
  apply sublist_length in Hlen. rewrite !length_fmap in Hlen.
  destruct (log_entries (rename_show_files o show_name files dry_run disk0))
    as [|e entries]; [by left|].
  right. exists (e :: entries). by rewrite records_write_rename_log.
Qed.

(** A run only ever appends to the log file: the records it held before
    are still there, in order, followed by at most one record per show;
    every record added belongs to a show of the run, lists at least one
    file and no more files than the show has. *)
Theorem run_log_append_only (o : Oracles) (now : string -> string)
    (show_files : list (string * list Path)) (dry_run : bool)
    (disk0 : gset Path) (log_file : option Json) :
  exists added,
    records (process_shows o now show_files dry_run disk0 log_file).2
    = records log_file ++ added
    /\ (length added <= length show_files)%nat
    /\ Forall (fun record =>
         exists show entries,
           show ∈ show_files
           /\ record = log_data (now show.1) show.1 entries
           /\ entries <> []
           /\ (length entries <= length show.2)%nat) added.
Proof.
  unfold process_shows. revert disk0 log_file.
  induction show_files as [|show show_files IH]; intros disk0 log_file; simpl.
  - exists []. by rewrite List.app_nil_r.
  - set (step := rename_show_files_logged o (now show.1) show.1 show.2 dry_run
                   disk0 log_file).
    destruct (IH step.1 step.2) as (added & Hrec & Hlen & Hall).
    assert (Forall (fun record =>
              exists show0 entries,
                show0 ∈ show :: show_files
                /\ record = log_data (now show0.1) show0.1 entries
                /\ entries <> []
                /\ (length entries <= length show0.2)%nat) added) as Hall'.
    { eapply Forall_impl; [exact Hall|].
      intros record (show0 & entries & Hin & Hrest).
      exists show0, entries. split; [by apply list_elem_of_further|done]. }
    replace (foldl _ _ show_files) with
      (foldl (fun state show0 =>
                rename_show_files_logged o (now show0.1) show0.1 show0.2 dry_run
                  state.1 state.2) (step.1, step.2) show_files)
      by (by destruct step).
    destruct (rename_show_files_logged_records o (now show.1) show.1 show.2 dry_run
                disk0 log_file) as [Hsame|(entries & Hwrite & Hne & Hcount)];
      fold step in Hsame || fold step in Hwrite.
    + exists added. rewrite Hrec, Hsame. split; [done|]. split; [lia|done].
    + exists (log_data (now show.1) show.1 entries :: added).
      rewrite Hrec, Hwrite, <- List.app_assoc. split; [done|].
      split; [simpl; lia|]. constructor; [|done].
      exists show, entries. split; [by apply list_elem_of_here|done].
Qed.

(** With [dry_run] set, a whole run over any number of shows leaves the
    files on the disk as they were; the log file is still written. *)
Theorem dry_run_leaves_files (o : Oracles) (now : string -> string)
    (show_files : list (string * list Path)) (disk0 : gset Path)
    (log_file : option Json) :
  (process_shows o now show_files true disk0 log_file).1 = disk0.
Proof.
  unfold process_shows. revert disk0 log_file.
  induction show_files as [|show show_files IH]; intros disk0 log_file; [done|].
  simpl.
  pose proof (dry_run_keeps_disk o show.1 show.2 disk0) as Hstep.
  destruct (rename_show_files_logged o (now show.1) show.1 show.2 true disk0 log_file)
    as [disk1 log1] eqn:Hlogged.
  unfold rename_show_files_logged in Hlogged. injection Hlogged as Hdisk _.
  rewrite Hstep in Hdisk. subst disk1. apply IH.
Qed.

Example dry_run_writes_log :
  records
    (process_shows SampleFiles.non_anime (fun _ => "2024-01-01 10:00:00")
       [("Example Show", [SampleFiles.original])] true
       {[ SampleFiles.original ]} (Some (JStr "earlier"))).2
  = [JStr "earlier";
     JObj [("timestamp", JStr "2024-01-01 10:00:00");
           ("show_name", JStr "Example Show");
           ("total_files", JNum 1);
           ("entries",
            JList [JObj [("original", JStr "Example.Show.S02E05.1080p.mkv");
                         ("detected", JStr "S02E05");
                         ("final", JStr "S02E05");
                         ("new_name", JStr "Example.Show.S02EP005.The.Return.1080p.mkv");
                         ("title", JStr "The Return")]])]].
Proof. vm_compute. reflexivity. Qed.

(** ** The catalog cache *)

(** A lookup that finds a show leaves it in the cache under the name
    asked for: from then on the same entry is returned whatever the
    catalog would answer, the cache staying as it is, and the entries of
    other names are untouched. *)
Theorem show_info_memoized (api : Tmdb.Api) (show_cache cache' : gmap string Show.Info)
    (show_name : string) (show_info : Show.Info) :
  Catalog.get_show_info api show_cache show_name = (cache', Some show_info) ->
  cache' !! show_name = Some show_info
  /\ (forall api', Catalog.get_show_info api' cache' show_name = (cache', Some show_info))
  /\ (forall other, other <> show_name -> cache' !! other = show_cache !! other).
Proof.
  unfold Catalog.get_show_info. intros Hget.
  assert (cache' !! show_name = Some show_info
          /\ forall other, other <> show_name -> cache' !! other = show_cache !! other)
    as [Hhit Hother].
  { destruct (show_cache !! show_name) as [cached|] eqn:Hcache.
    - by injection Hget as <- <-.
    - destruct (Tmdb.search api show_name) as [[|show rest]|]; try done.
      injection Hget as <- <-. split; [apply lookup_insert_eq|].
      intros other Hne. by apply lookup_insert_ne. }
  split; [done|]. split; [|done]. intros api'. by rewrite Hhit.
Qed.

Lemma show_info_memoized_witness :
  Catalog.get_show_info
    {| Tmdb.search := fun _ => None; Tmdb.details := fun _ => None |}
    (Catalog.get_show_info
       {| Tmdb.search := fun _ => Some [(7, "Example Show")];
          Tmdb.details := fun _ => None |} ∅ "example show").1
    "example show"
  = ((Catalog.get_show_info
        {| Tmdb.search := fun _ => Some [(7, "Example Show")];
           Tmdb.details := fun _ => None |} ∅ "example show").1,
     Some {| Show.id := 7; Show.name := "Example Show"; Show.seasons := ∅;
             Show.total_episodes := 0; Show.is_anime := false |}).
Proof.
  refine (proj1 (proj2 (show_info_memoized
            {| Tmdb.search := fun _ => Some [(7, "Example Show")];
               Tmdb.details := fun _ => None |} ∅ _ "example show" _ _)) _).
  reflexivity.
Defined.

(** A lookup that finds nothing, because the search has no result or
    raises, caches nothing: the cache is returned unchanged and still has
    no entry for the name, so the next lookup asks the catalog again. *)
Theorem show_not_found_not_cached (api : Tmdb.Api)
    (show_cache cache' : gmap string Show.Info) (show_name : string) :
  Catalog.get_show_info api show_cache show_name = (cache', None) ->
  cache' = show_cache
  /\ show_cache !! show_name = None
  /\ (Tmdb.search api show_name = None \/ Tmdb.search api show_name = Some [])
  /\ forall api',
       Catalog.get_show_info api' cache' show_name
       = match Tmdb.search api' show_name with
         | Some (show :: _) =>
             (<[show_name := Catalog.build_show_info api' show]> show_cache,
              Some (Catalog.build_show_info api' show))
         | _ => (show_cache, None)
         end.
Proof.
  unfold Catalog.get_show_info.
  destruct (show_cache !! show_name) as [cached|] eqn:Hcache; [done|].
  destruct (Tmdb.search api show_name) as [[|show rest]|]; try done.
  - intros [= <-]. split; [done|]. split; [done|]. split; [by right|].
    intros api'. rewrite Hcache. by destruct (Tmdb.search api' show_name) as [[|]|].
  - intros [= <-]. split; [done|]. split; [done|]. split; [by left|].
    intros api'. rewrite Hcache. by destruct (Tmdb.search api' show_name) as [[|]|].
Qed.

Lemma show_not_found_not_cached_witness :
  (Catalog.get_show_info
     {| Tmdb.search := fun _ => Some []; Tmdb.details := fun _ => None |}
     ∅ "No Such Show").1 = ∅.
Proof.
  refine (proj1 (show_not_found_not_cached
            {| Tmdb.search := fun _ => Some []; Tmdb.details := fun _ => None |}
            ∅ _ "No Such Show" _)).
  reflexivity.
Defined.

Lemma table_total_insert (seasons : gmap Z Z) (season_num episode_count : Z) :
  seasons !! season_num = None ->
  table_total (<[season_num := episode_count]> seasons)
  = episode_count + table_total seasons.
Proof.
  intros Hnone. unfold table_total.
  apply (map_fold_insert_L (fun _ c t => c + t)); [|done].
  intros. lia.
Qed.

Lemma listed_cons (season_data : Z * Z) (seasons : list (Z * Z)) :
  listed (season_data :: seasons)
  = if decide (0 < season_data.1) then season_data :: listed seasons
    else listed seasons.
Proof. exact (filter_cons (fun sd : Z * Z => 0 < sd.1) season_data seasons). Qed.

Lemma season_table_fold (seasons : list (Z * Z)) :
  forall (acc : gmap Z Z * Z),
    let result := foldl Catalog.add_season acc seasons in
    result.2 = acc.2 + count_total (listed seasons)
    /\ (forall k v, result.1 !! k = Some v ->
          acc.1 !! k = Some v \/ (0 < k /\ (k, v) ∈ seasons))
    /\ (NoDup (listed seasons).*1 ->
        (forall k, k ∈ (listed seasons).*1 -> acc.1 !! k = None) ->
        table_total result.1 = table_total acc.1 + count_total (listed seasons)).
Proof.
  induction seasons as [|[num count] seasons IH]; intros acc; simpl.
  { split; [lia|]. split; [by left|]. intros _ _. lia. }
  rewrite listed_cons. simpl.
  destruct (IH (Catalog.add_season acc (num, count))) as (Htotal & Hkeys & Hsum).
  unfold Catalog.add_season in *. simpl in *.
  destruct (Z.gtb_spec num 0) as [Hpos|Hneg].
  - rewrite decide_True by lia. simpl in *.
    split; [rewrite Htotal; lia|]. split.
    + intros k v Hk. destruct (Hkeys k v Hk) as [Hacc|[Hk0 Hin]].
      * destruct (decide (k = num)) as [->|Hne].
        -- rewrite lookup_insert_eq in Hacc. injection Hacc as <-.
           right. split; [lia|]. apply list_elem_of_here.
        -- rewrite lookup_insert_ne in Hacc by done. by left.
      * right. split; [done|]. by apply list_elem_of_further.
    + intros Hnodup Hfresh. apply NoDup_cons in Hnodup as [Hnotin Hnodup].
      rewrite Hsum; [|done|].
      * rewrite table_total_insert; [lia|]. apply Hfresh, list_elem_of_here.
      * intros k Hk. rewrite lookup_insert_ne; [by apply Hfresh, list_elem_of_further|].
        intros ->. done.
  - rewrite decide_False by lia.
    split; [done|]. split; [|done].
    intros k v Hk. destruct (Hkeys k v Hk) as [Hacc|[Hk0 Hin]]; [by left|].
    right. split; [done|]. by apply list_elem_of_further.
Qed.

(** The entry built for a show has only positive season numbers as keys,
    each with a count the catalog listed, and its total is the sum of the
    counts of the listed seasons.  When the catalog lists no season number
    twice, the total is also the sum of the season table. *)
Theorem show_info_totals (api : Tmdb.Api) (show : Z * string) :
  let show_info := Catalog.build_show_info api show in
  let seasons := default [] (Tmdb.seasons <$> Tmdb.details api show.1) in
  (forall k v, Show.seasons show_info !! k = Some v -> 0 < k /\ (k, v) ∈ seasons)
  /\ Show.total_episodes show_info = count_total (listed seasons)
  /\ (NoDup (listed seasons).*1 ->
      Show.total_episodes show_info = table_total (Show.seasons show_info)).
Proof.
  unfold Catalog.build_show_info.
  destruct (Tmdb.details api show.1) as [d|]; simpl.
  - destruct (season_table_fold (Tmdb.seasons d) (∅, 0)) as (Htotal & Hkeys & Hsum).
    fold (Catalog.season_table (Tmdb.seasons d)) in *. simpl in *.
    split.
    { intros k v Hk. destruct (Hkeys k v Hk) as [Hempty|]; [|done].
      by rewrite lookup_empty in Hempty. }
    split; [by rewrite Htotal|].
    intros Hnodup. rewrite Htotal, Hsum; [done|done|].
    intros k _. apply lookup_empty.
  - split; [intros k v Hk; by rewrite lookup_empty in Hk|]. split; [done|].
    intros _. reflexivity.
Qed.

Lemma show_info_totals_witness :
  Show.total_episodes
    (Catalog.build_show_info
       {| Tmdb.search := fun _ => Some [(7, "Example Show")];
          Tmdb.details := fun _ =>
            Some {| Tmdb.genres := ["Drama"]; Tmdb.origin_country := ["US"];
                    Tmdb.seasons := [(0, 3); (1, 10); (2, 12)] |} |}
       (7, "Example Show"))
  = table_total
      (Show.seasons
         (Catalog.build_show_info
            {| Tmdb.search := fun _ => Some [(7, "Example Show")];
               Tmdb.details := fun _ =>
                 Some {| Tmdb.genres := ["Drama"]; Tmdb.origin_country := ["US"];
                         Tmdb.seasons := [(0, 3); (1, 10); (2, 12)] |} |}
            (7, "Example Show"))).
Proof.
  refine (proj2 (proj2 (show_info_totals
            {| Tmdb.search := fun _ => Some [(7, "Example Show")];
               Tmdb.details := fun _ =>
                 Some {| Tmdb.genres := ["Drama"]; Tmdb.origin_country := ["US"];
                         Tmdb.seasons := [(0, 3); (1, 10); (2, 12)] |} |}
            (7, "Example Show"))) _).
  apply (bool_decide_unpack _). vm_compute. exact I.
Defined.

(** A season number listed twice is counted twice in the total but kept
    once in the table. *)
Example repeated_season_total :
  Catalog.season_table [(1, 12); (1, 13)] = ({[ 1 := 13 ]}, 25).
Proof. vm_compute. reflexivity. Qed.

Example likely_anime_examples :
  Catalog.likely_anime "Sample Anime"
    {| Tmdb.genres := ["Animation"; "Action"]; Tmdb.origin_country := ["JP"];
       Tmdb.seasons := [] |} = true
  /\ Catalog.likely_anime "Big in Japan"
       {| Tmdb.genres := ["ANIMATION"]; Tmdb.origin_country := ["US"];
          Tmdb.seasons := [] |} = true
  /\ Catalog.likely_anime "Sample Anime"
       {| Tmdb.genres := ["Animation"]; Tmdb.origin_country := ["jp"];
          Tmdb.seasons := [] |} = false
  /\ Catalog.likely_anime "Sample Drama"
       {| Tmdb.genres := ["Drama"]; Tmdb.origin_country := ["JP"];
          Tmdb.seasons := [] |} = false.
Proof. repeat split. Qed.

(** ** Grouping the files by show *)

Lemma add_file_key_elem (show_files : list (string * list Path)) (show_name : string)
    (file_path : Path) (key : string) :
  key ∈ (add_file show_files show_name file_path).*1
  <-> key ∈ show_files.*1 \/ key = show_name.
Proof.
  induction show_files as [|[k fs] rest IH]; simpl.
  - rewrite list_elem_of_singleton, elem_of_nil. tauto.
  - destruct (String.eqb_spec k show_name) as [->|Hne]; simpl.
    + rewrite !elem_of_cons. tauto.
    + rewrite !elem_of_cons, IH. tauto.
Qed.

Lemma add_file_NoDup (show_files : list (string * list Path)) (show_name : string)
    (file_path : Path) :
  NoDup show_files.*1 -> NoDup (add_file show_files show_name file_path).*1.
Proof.
  induction show_files as [|[k fs] rest IH]; simpl.
  - intros _. apply NoDup_singleton.
  - rewrite NoDup_cons. intros [Hnotin Hrest].
    destruct (String.eqb_spec k show_name) as [->|Hne]; simpl.
    + by apply NoDup_cons.
    + apply NoDup_cons. split; [|by apply IH].
      rewrite add_file_key_elem. tauto.
Qed.

Lemma add_file_elem (show_files : list (string * list Path)) (show_name : string)
    (file_path : Path) (key : string) (files : list Path) :
  NoDup show_files.*1 ->
  (key, files) ∈ add_file show_files show_name file_path
  <-> (key <> show_name /\ (key, files) ∈ show_files)
      \/ (key = show_name
          /\ ((exists before, (show_name, before) ∈ show_files
                              /\ files = before ++ [file_path])
              \/ ((show_name ∉ show_files.*1) /\ files = [file_path]))).
Proof.
  induction show_files as [|[k fs] rest IH]; simpl.
  - intros _. rewrite list_elem_of_singleton. split.
    + intros Heq. simplify_eq. right. split; [done|]. right.
      split; [apply not_elem_of_nil|done].
    + intros [[_ Hin]|[-> [(before & Hin & _)|[_ ->]]]]; try done;
        by apply elem_of_nil in Hin.
  - rewrite NoDup_cons. intros [Hnotin Hrest]. specialize (IH Hrest).
    assert (forall x, (show_name, x) ∈ rest -> show_name ∈ rest.*1) as Hkey.
    { intros x Hx. apply list_elem_of_fmap. by exists (show_name, x). }
    destruct (String.eqb_spec k show_name) as [->|Hne]; split.
    + intros [Heq|Hin]%elem_of_cons.
      * simplify_eq. right. split; [done|]. left. exists fs.
        split; [apply list_elem_of_here|done].
      * left. split; [|by apply list_elem_of_further].
        intros ->. by apply Hnotin, (Hkey files).
    + intros [[Hne Hin]|[-> [(before & Hin & ->)|[Hno _]]]].
      * apply elem_of_cons in Hin as [Heq|Hin]; [by simplify_eq|].
        by apply list_elem_of_further.
      * apply elem_of_cons in Hin as [Heq|Hin].
        -- simplify_eq. apply list_elem_of_here.
        -- destruct Hnotin. by apply (Hkey before).
      * destruct Hno. simpl. apply list_elem_of_here.
    + intros [Heq|Hin]%elem_of_cons.
      * simplify_eq. left. split; [done|apply list_elem_of_here].
      * apply IH in Hin as [[Hk Hin]|[-> [(before & Hin & ->)|[Hno ->]]]].
        -- left. split; [done|by apply list_elem_of_further].
        -- right. split; [done|]. left. exists before.
           split; [by apply list_elem_of_further|done].
        -- right. split; [done|]. right. split; [|done].
           simpl. apply not_elem_of_cons. split; [congruence|done].
    + intros [[Hk Hin]|[-> [(before & Hin & ->)|[Hno ->]]]].
      * apply elem_of_cons in Hin as [Heq|Hin]; [simplify_eq; apply list_elem_of_here|].
        apply list_elem_of_further, IH. left. by split.
      * apply elem_of_cons in Hin as [Heq|Hin]; [by simplify_eq|].
        apply list_elem_of_further, IH. right. split; [done|]. left. by exists before.
      * simpl in Hno. apply not_elem_of_cons in Hno as [_ Hno].
        apply list_elem_of_further, IH. right. split; [done|]. right. by split.
Qed.

Lemma group_files_by_show_snoc (root_path : string) (found : list Path) (file_path : Path) :
  group_files_by_show root_path (found ++ [file_path])
  = group_step root_path (group_files_by_show root_path found) file_path.
Proof. unfold group_files_by_show. by rewrite foldl_snoc. Qed.

Lemma filter_grouped_as_snoc (root_path show_name : string) (found : list Path)
    (file_path : Path) :
  filter (grouped_as root_path show_name) (found ++ [file_path])
  = filter (grouped_as root_path show_name) found
    ++ (if decide (grouped_as root_path show_name file_path) then [file_path] else []).
Proof. rewrite filter_app. f_equal. Qed.

Lemma group_files_by_show_char (root_path : string) (found : list Path) :
  NoDup (group_files_by_show root_path found).*1
  /\ forall show_name files,
       (show_name, files) ∈ group_files_by_show root_path found
       <-> files <> [] /\ files = filter (grouped_as root_path show_name) found.
Proof.
  induction found as [|file_path found IH] using rev_ind.
  { split; [apply NoDup_nil_2|]. intros show_name files. simpl.
    rewrite elem_of_nil. split; [done|]. by intros [Hne ->]. }
  destruct IH as [Hnodup IH].
  rewrite group_files_by_show_snoc. unfold group_step.
  destruct (is_video file_path) eqn:Hvideo.
  2:{ split; [done|]. intros show_name files. rewrite IH, filter_grouped_as_snoc.
      rewrite decide_False by (intros [Hv _]; congruence).
      by rewrite List.app_nil_r. }
  destruct (show_name_for root_path file_path) as [this|] eqn:Hname.
  2:{ split; [done|]. intros show_name files. rewrite IH, filter_grouped_as_snoc.
      rewrite decide_False by (intros [_ Hn]; congruence).
      by rewrite List.app_nil_r. }
  split; [by apply add_file_NoDup|].
  intros show_name files. rewrite add_file_elem by done.
  rewrite filter_grouped_as_snoc.
  destruct (decide (show_name = this)) as [->|Hne].
  - rewrite decide_True by done. split.
    + intros [[Hne _]|[_ [(before & Hin & ->)|[Hno ->]]]]; [done| |].
      * apply IH in Hin as [_ <-]. split; [|done]. by destruct before.
      * split; [done|].
        destruct (filter (grouped_as root_path this) found) as [|f fs] eqn:Hfilter;
          [done|].
        destruct Hno. apply list_elem_of_fmap. exists (this, f :: fs).
        split; [done|]. apply IH. by rewrite Hfilter.
    + intros [_ ->]. right. split; [done|].
      destruct (filter (grouped_as root_path this) found) as [|f fs] eqn:Hfilter.
      * right. split; [|done].
        intros ([k fs] & Hk & Hin)%list_elem_of_fmap. simpl in Hk. subst k.
        apply IH in Hin as [Hne Heq]. congruence.
      * left. exists (f :: fs). split; [|done]. apply IH. by rewrite Hfilter.
  - rewrite decide_False by (intros [_ Hn]; congruence).
    rewrite List.app_nil_r, <- IH. split; [|by left].
    intros [[_ Hin]|[-> _]]; done.
Qed.

(** The grouping is exactly this: no show name appears twice, and a name
    is paired with a list of files if and only if that list is not empty
    and is the list of the video files found that lines 297-312 give that
    name, in the order they were found.  So nothing is grouped under an
    empty list, and every video file found that gets a name is in the
    group of that name. *)
Theorem group_files_by_show_exact (root_path : string) (found : list Path) :
  NoDup (group_files_by_show root_path found).*1
  /\ (forall show_name files,
        (show_name, files) ∈ group_files_by_show root_path found
        <-> files <> [] /\ files = filter (grouped_as root_path show_name) found)
  /\ (forall show_name file_path,
        file_path ∈ found ->
        grouped_as root_path show_name file_path ->
        exists files,
          (show_name, files) ∈ group_files_by_show root_path found
          /\ file_path ∈ files).
Proof.
  destruct (group_files_by_show_char root_path found) as [Hnodup Hchar].
  split; [done|]. split; [done|].
  intros show_name file_path Hfound Hgrouped.
  exists (filter (grouped_as root_path show_name) found).
  assert (file_path ∈ filter (grouped_as root_path show_name) found) as Hin
    by (by apply list_elem_of_filter).
  split; [|done]. apply Hchar. split; [|done].
  intros Hnil. rewrite Hnil in Hin. by apply elem_of_nil in Hin.
Qed.

Example group_files_by_show_example :
  group_files_by_show "/tv"
    [("/tv", "Example Show"); ("/tv/Example Show", "a.mkv");
     ("/tv/Example Show", "notes.txt"); ("/tv", "My.Show.S01E01.mkv");
     ("/tv", "My.Show.S01E02.MKV"); ("/tv", "Pilot.mkv");
     ("/tv/Example_Show", "b.mp4"); ("/tv/x/...", "c.avi")]
  = [("Example Show", [("/tv/Example Show", "a.mkv"); ("/tv/Example_Show", "b.mp4")]);
     ("My Show S01E01", [("/tv", "My.Show.S01E01.mkv")]);
     ("My Show S01E02", [("/tv", "My.Show.S01E02.MKV")])].
Proof. vm_compute. reflexivity. Qed.

(** ** The show name of a file in the root folder *)

Lemma tidy_name_strip (s : string) :
  tidy_name s = true -> Str.strip Chars.is_space s = s.
Proof.
  unfold tidy_name. rewrite andb_true_iff. intros [Hne Hs]. unfold Str.strip.
  assert (Str.lstrip Chars.is_space s = s) as ->.
  { destruct s as [|c s]; [done|]. rewrite single_spaced_cons in Hs. simpl.
    destruct (Chars.is_space c); [|done]. by rewrite andb_false_r in Hs. }
  by apply (single_spaced_rstrip true).
Qed.

Lemma forallb_rev_app (q : ascii -> bool) (s t : string) :
  Str.forallb q (String.rev_app s t) = Str.forallb q s && Str.forallb q t.
Proof.
  revert t. induction s as [|c s IH]; intros t; simpl; [done|].
  rewrite IH. simpl. by destruct (q c), (Str.forallb q s).
Qed.

Lemma rev_app_nonempty (s t : string) : t <> "" -> String.rev_app s t <> "".
Proof.
  revert t. induction s as [|c s IH]; intros t Ht; simpl; [done|]. by apply IH.
Qed.

Lemma flush_run_words (q : ascii -> bool) (cur : string) :
  Str.forallb q cur = true ->
  Forall (fun w => w <> "" /\ Str.forallb q w = true) (flush_run cur).
Proof.
  intros Hcur. destruct cur as [|c cur]; simpl; [constructor|].
  constructor; [|constructor]. unfold String.rev. split.
  - simpl. by apply rev_app_nonempty.
  - by rewrite forallb_rev_app, Hcur.
Qed.

Lemma split_ws_go_words (q : ascii -> bool) (s : string) :
  forall cur,
    Str.forallb q cur = true ->
    Str.forallb (fun c => Chars.is_space c || q c) s = true ->
    Forall (fun w => w <> "" /\ Str.forallb q w = true) (split_ws_go cur s).
Proof.
  induction s as [|c s IH]; intros cur Hcur; simpl.
  - intros _. by apply flush_run_words.
  - rewrite andb_true_iff. intros [Hc Hs].
    destruct (Chars.is_space c) eqn:Hsp.
    + apply Forall_app. split; [by apply flush_run_words|]. by apply IH.
    + apply IH; [|done]. simpl. simpl in Hc. by rewrite Hc, Hcur.
Qed.

Lemma single_spaced_word_app (b : bool) (w rest : string) :
  w <> "" ->
  Str.forallb (fun c => negb (Chars.is_space c) && negb (is_separator c)) w = true ->
  single_spaced b (w +:+ rest) = single_spaced false rest.
Proof.
  revert b. induction w as [|c w IH]; intros b Hne Hq; [done|].
  simpl in Hq. rewrite !andb_true_iff, !negb_true_iff in Hq.
  destruct Hq as [[Hsp Hsep] Hw].
  rewrite app_cons, single_spaced_cons, Hsp, Hsep. simpl.
  destruct w as [|c' w]; [done|]. by apply IH.
Qed.

Lemma join_spaces_tidy (words : list string) :
  words <> [] ->
  Forall (fun w => w <> "" /\
            Str.forallb (fun c => negb (Chars.is_space c) && negb (is_separator c)) w
            = true) words ->
  tidy_name (join_spaces words) = true.
Proof.
  intros Hne Hwords. unfold tidy_name. apply andb_true_iff. split.
  - destruct words as [|w [|w' rest]]; [done| |];
      apply Forall_cons in Hwords as [[Hw _] _]; simpl; by destruct w.
  - destruct words as [|w rest]; [done|]. clear Hne.
    cut (forall b, single_spaced b (join_spaces (w :: rest)) = true); [by intros H|].
    revert w Hwords.
    induction rest as [|w' rest IH]; intros w Hwords b;
      apply Forall_cons in Hwords as [[Hw Hq] Hrest].
    + simpl. rewrite <- (app_nil_r w). by rewrite single_spaced_word_app.
    + change (join_spaces (w :: w' :: rest))
        with (w +:+ " " +:+ join_spaces (w' :: rest)).
      rewrite single_spaced_word_app by done.
      rewrite app_cons, single_spaced_cons. simpl. by apply IH.
Qed.

Lemma split_ws_clean_words (s : string) :
  Forall (fun w => w <> "" /\
            Str.forallb (fun c => negb (Chars.is_space c) && negb (is_separator c)) w
            = true) (split_ws (separators_to_spaces s)).
Proof.
  apply split_ws_go_words; [done|].
  pose proof (separators_to_spaces_clean s) as Hclean.
  induction (separators_to_spaces s) as [|c t IH]; simpl in *; [done|].
  apply andb_true_iff in Hclean as [Hc Ht]. rewrite (IH Ht), Hc.
  by destruct (Chars.is_space c).
Qed.

Lemma first_words_tidy (s : string) :
  (2 <= length (split_ws (separators_to_spaces s)))%nat ->
  tidy_name (join_spaces (take 3 (split_ws (separators_to_spaces s)))) = true.
Proof.
  intros Hlen. apply join_spaces_tidy.
  - destruct (split_ws _) as [|w [|w' rest]]; simpl in *; [lia|lia|done].
  - apply Forall_take, split_ws_clean_words.
Qed.

(** A video file directly in the root folder gets a show name only when
    the stem of its name, with [_], [-] and [.] read as spaces, has at
    least two words; the name is then its first three words (or its two
    words) joined by single spaces.  A file with a one-word stem is left
    out of the run. *)
Theorem root_file_show_name (root_path filename : string) :
  show_name_for root_path (root_path, filename)
  = let words := split_ws (separators_to_spaces (stem_of filename)) in
    if Nat.leb 2 (length words) then Some (join_spaces (take 3 words)) else None.
Proof.
  unfold show_name_for, parent, name. cbn [fst snd].
  rewrite String.eqb_refl. cbn [negb]. cbv zeta.
  destruct (Nat.leb 2 (length (split_ws (separators_to_spaces (stem_of filename)))))
    eqn:Hlen; [|done].
  apply Nat.leb_le in Hlen.
  pose proof (first_words_tidy _ Hlen) as Htidy.
  rewrite (tidy_name_strip _ Htidy).
  unfold tidy_name in Htidy. apply andb_true_iff in Htidy as [-> _]. done.
Qed.

Lemma show_name_for_tidy (root_path : string) (file_path : Path) (show_name : string) :
  show_name_for root_path file_path = Some show_name -> tidy_name show_name = true.
Proof.
  destruct file_path as [dir filename].
  destruct (String.eqb_spec dir root_path) as [->|Hne].
  - unfold show_name_for, parent, name. cbn [fst snd].
    rewrite String.eqb_refl. cbn [negb]. cbv zeta.
    destruct (Nat.leb 2 (length (split_ws (separators_to_spaces (stem_of filename)))))
      eqn:Hlen; [|done].
    apply Nat.leb_le, first_words_tidy in Hlen.
    rewrite (tidy_name_strip _ Hlen).
    destruct (Str.nonempty _); [|done]. by intros [= <-].
  - unfold show_name_for, parent. cbn [fst snd].
    apply String.eqb_neq in Hne. rewrite Hne. cbn [negb].
    intros Hdetect. by apply detected_name_tidy in Hdetect.
Qed.

(** Every show name the grouping produces, from a folder or from a file
    name, is tidy: not empty, free of [_], [-] and [.], with single
    spaces only between words. *)
Theorem grouped_show_names_tidy (root_path : string) (found : list Path)
    (show_name : string) (files : list Path) :
  (show_name, files) ∈ group_files_by_show root_path found ->
  tidy_name show_name = true
  /\ Forall (fun file_path => file_path ∈ found /\ is_video file_path = true) files.
Proof.
  intros Hin. apply group_files_by_show_char in Hin as [Hne ->].
  split.
  - destruct (filter _ found) as [|f fs] eqn:Hfilter; [done|].
    assert (f ∈ filter (grouped_as root_path show_name) found) as Hf
      by (rewrite Hfilter; apply list_elem_of_here).
    apply list_elem_of_filter in Hf as [[_ Hname] _].
    by apply show_name_for_tidy in Hname.
  - apply Forall_forall. intros f Hf.
    apply list_elem_of_filter in Hf as [[Hvideo _] Hf]. done.
Qed.

Lemma grouped_show_names_tidy_witness :
  tidy_name "My Show S01E01" = true
  /\ Forall (fun file_path =>
               file_path ∈ [("/tv", "My.Show.S01E01.mkv"); ("/tv", "Pilot.mkv")]
               /\ is_video file_path = true)
       [("/tv", "My.Show.S01E01.mkv")].
Proof.
  apply (grouped_show_names_tidy "/tv"
           [("/tv", "My.Show.S01E01.mkv"); ("/tv", "Pilot.mkv")]).
  apply (bool_decide_unpack _). vm_compute. exact I.
Defined.

(** ** The numbers that go into a name *)

Lemma format_d_width_2 (n : Z) : 0 <= n <= 99 -> String.length (format_d 2 n) = 2%nat.
Proof.
  intros Hn.
  assert (Forall (fun n => String.length (format_d 2 n) = 2%nat) (seqZ 0 100)) as Hall.
  { apply (bool_decide_unpack _). vm_compute. exact I. }
  rewrite Forall_forall in Hall. apply Hall, elem_of_seqZ. lia.
Qed.

Lemma format_d_width_3 (n : Z) : 0 <= n <= 999 -> String.length (format_d 3 n) = 3%nat.
Proof.
  intros Hn.
  assert (Forall (fun n => String.length (format_d 3 n) = 3%nat) (seqZ 0 1000)) as Hall.
  { apply (bool_decide_unpack _). vm_compute. exact I. }
  rewrite Forall_forall in Hall. apply Hall, elem_of_seqZ. lia.
Qed.

Lemma lookup_title_pair (o : Oracles) (show_name : string) (is_anime : bool)
    (ds de : Z) (located : Z * Z) :
  (lookup_title o show_name is_anime ds de located).1 = located
  \/ (lookup_title o show_name is_anime ds de located).1 = (ds, de).
Proof.
  unfold lookup_title. destruct located as [fs fe].
  destruct (negb _ && is_anime && (fs =? 1)).
  - right. by destruct (truthy_str _).
  - by left.
Qed.

Lemma locate_episode_range (o : Oracles) (show_info : Show.Info) (ds de : Z) :
  1 <= ds <= 20 -> 1 <= de <= 50 ->
  1 <= (locate_episode o show_info ds de).1 <= 20
  /\ 1 <= (locate_episode o show_info ds de).2 <= 278.
Proof.
  intros Hs He. unfold locate_episode.
  destruct (Show.is_anime show_info); [|simpl; lia].
  assert (1 <= fallback_episode ds de <= 278) as Hfallback.
  { unfold fallback_episode. destruct (Z.gtb_spec ds 1); lia. }
  destruct (ask_ollama_for_anime_mapping o show_info ds de) as [mapped|] eqn:Hask;
    [|simpl; lia].
  apply parse_anime_mapping_range in Hask.
  destruct (truthy_int (Some mapped)); simpl; lia.
Qed.

(** When the episode guess is the one parsed from the inference output,
    every number that reaches a file name is bounded: the detected pair is
    in 1..20 and 1..50, the final season in 1..20, the final episode in
    1..278, and the episode code [S##EP###] is exactly eight characters
    long. *)
Theorem resolved_numbers_in_range (o : Oracles) (run_guess : string -> RunResult)
    (show_name : string) (show_info : Show.Info) (file_path : Path) (pl : Plan) :
  plan_file (with_guess_runs o run_guess) show_name show_info file_path = Some pl ->
  1 <= detected_season pl <= 20
  /\ 1 <= detected_episode pl <= 50
  /\ 1 <= final_season (parts pl) <= 20
  /\ 1 <= final_episode (parts pl) <= 278
  /\ String.length (episode_code (final_season (parts pl)) (final_episode (parts pl)))
     = 8%nat.
Proof.
  unfold plan_file. simpl.
  destruct (parse_episode_info (run_guess (name file_path))) as [[ds de]|] eqn:Hguess;
    [|done].
  apply parse_episode_info_bounds in Hguess as (Hs & He).
  pose proof (locate_episode_range (with_guess_runs o run_guess) show_info ds de Hs He)
    as [Hls Hle].
  pose proof (lookup_title_pair (with_guess_runs o run_guess) show_name
                (Show.is_anime show_info) ds de
                (locate_episode (with_guess_runs o run_guess) show_info ds de)) as Hpair.
  destruct (lookup_title _ _ _ _ _ _) as [[fs fe] t]. simpl in Hpair.
  intros [= <-]. simpl.
  assert (1 <= fs <= 20 /\ 1 <= fe <= 278) as [Hfs Hfe].
  { destruct Hpair as [Hp|Hp].
    - rewrite <- Hp in Hls, Hle. simpl in *. lia.
    - injection Hp as -> ->. lia. }
  split; [done|]. split; [done|]. split; [done|]. split; [done|].
  unfold episode_code. rewrite !app_length, format_d_width_2, format_d_width_3 by lia.
  reflexivity.
Qed.

Lemma resolved_numbers_in_range_witness :
  exists pl,
    plan_file (with_guess_runs SampleFiles.non_anime (fun _ => Completed 0 "S02E05" ""))
      "Example Show" (Sample.show "Example Show" false) SampleFiles.original = Some pl
    /\ 1 <= final_episode (parts pl) <= 278.
Proof.
  eexists. split; [reflexivity|].
  refine (proj1 (proj2 (proj2 (proj2
            (resolved_numbers_in_range SampleFiles.non_anime
               (fun _ => Completed 0 "S02E05" "") "Example Show"
               (Sample.show "Example Show" false) SampleFiles.original _ eq_refl))))).
Defined.

Lemma safe_title_of_number (n : Z) : 0 <= n <= 999 -> safe_title_of (str n) = str n.
Proof.
  intros Hn.
  assert (Forall (fun n => safe_title_of (str n) = str n) (seqZ 0 1000)) as Hall.
  { apply (bool_decide_unpack _). vm_compute. exact I. }
  rewrite Forall_forall in Hall. apply Hall, elem_of_seqZ. lia.
Qed.

(** When no title was found and the episode number stands in for it
    (line 387), the number is recorded as the title in the log entry but
    is not repeated in the file name: the name has no title segment. *)
Theorem generic_title_left_out (o : Oracles) (show_name : string)
    (show_info : Show.Info) (file_path : Path) (pl : Plan) :
  plan_file o show_name show_info file_path = Some pl ->
  resolved_title pl = str (final_episode (parts pl)) ->
  0 <= final_episode (parts pl) <= 999 ->
  base_name (parts pl)
  = clean_show_name_of show_name +:+ "."
      +:+ episode_code (final_season (parts pl)) (final_episode (parts pl))
      +:+ tail_of (parts pl)
  /\ forall new_name,
       title (log_entry (name file_path) pl new_name) = str (final_episode (parts pl)).
Proof.
  intros Hplan Htitle Hrange. split; [|done].
  assert (safe_title (parts pl) = safe_title_of (resolved_title pl)
          /\ clean_show_name (parts pl) = clean_show_name_of show_name) as [Hsafe Hclean].
  { unfold plan_file in Hplan.
    destruct (extract_episode_info o (name file_path)) as [[ds de]|]; [|done].
    destruct (lookup_title _ _ _ _ _ _) as [[fs fe] t]. by injection Hplan as <-. }
  rewrite Htitle, safe_title_of_number in Hsafe by done.
  rewrite base_name_split. unfold stem.
  rewrite title_present_false by (by right).
  by rewrite Hclean, !app_assoc, app_nil_l.
Qed.

Lemma generic_title_left_out_witness :
  exists pl,
    plan_file (Sample.oracles false Sample.no_titles (Some (2, 5)) TimeoutExpired true)
      "Example Show" (Sample.show "Example Show" false) SampleFiles.original = Some pl
    /\ base_name (parts pl) = "Example.Show.S02EP005.1080p.mkv".
Proof.
  eexists. split; [reflexivity|].
  refine (proj1 (generic_title_left_out
            (Sample.oracles false Sample.no_titles (Some (2, 5)) TimeoutExpired true)
            "Example Show" (Sample.show "Example Show" false) SampleFiles.original
            _ eq_refl eq_refl _)).
  simpl. lia.
Defined.

(** ** What a run may touch *)

Lemma touches_only_refl (allowed : list Path) (d : gset Path) : touches_only allowed d d.
Proof. split; intros q H1 H2; done. Qed.

Lemma touches_only_trans (allowed : list Path) (d1 d2 d3 : gset Path) :
  touches_only allowed d1 d2 -> touches_only allowed d2 d3 -> touches_only allowed d1 d3.
Proof.
  intros [Hgone12 Hnew12] [Hgone23 Hnew23]. split; intros q H1 H3.
  - destruct (decide (q ∈ d2)); [by apply Hgone23|by apply Hgone12].
  - destruct (decide (q ∈ d2)); [by apply Hnew12|by apply Hnew23].
Qed.

Lemma touches_only_mono (allowed allowed' : list Path) (d1 d2 : gset Path) :
  (forall q, q ∈ allowed -> q ∈ allowed') ->
  touches_only allowed d1 d2 -> touches_only allowed' d1 d2.
Proof.
  intros Hsub [Hgone Hnew]. split; intros q H1 H2.
  - by apply Hsub, Hgone.
  - destruct (Hnew q H1 H2) as (f & Hf & Hparent). exists f. split; [by apply Hsub|done].
Qed.

Lemma process_file_touches (o : Oracles) (dry_run : bool) (show_name : string)
    (show_info : Show.Info) (st : State) (file_path : Path) :
  touches_only [file_path] (disk st)
    (disk (process_file o dry_run show_name show_info st file_path).1).
Proof.
  unfold process_file.
  destruct (plan_file o show_name show_info file_path) as [pl|];
    [|apply touches_only_refl].
  destruct (resolve_collision (disk st) file_path (parts pl)) as [[n c]|];
    [|apply touches_only_refl].
  destruct (bool_decide _); [apply touches_only_refl|].
  destruct dry_run; [apply touches_only_refl|].
  unfold rename_step. destruct (os_rename _ _ _); [|apply touches_only_refl].
  simpl. split; intros q H1 H2.
  - apply list_elem_of_singleton. destruct (decide (q = file_path)); [done|].
    destruct H2. apply elem_of_union_r, elem_of_difference.
    split; [done|]. by rewrite elem_of_singleton.
  - exists file_path. split; [apply list_elem_of_here|].
    apply elem_of_union in H2 as [H2|H2].
    + apply elem_of_singleton in H2 as ->. reflexivity.
    + apply elem_of_difference in H2 as [H2 _]. done.
Qed.

Lemma rename_show_files_touches (o : Oracles) (show_name : string)
    (files : list Path) (dry_run : bool) (disk0 : gset Path) :
  touches_only files disk0 (disk (rename_show_files o show_name files dry_run disk0)).
Proof.
  unfold rename_show_files.
  destruct (get_show_info o show_name) as [show_info|]; [|apply touches_only_refl].
  generalize (@nil LogEntry). revert disk0.
  induction files as [|f files IH]; intros disk0 entries; [apply touches_only_refl|].
  simpl.
  pose proof (process_file_touches o dry_run show_name show_info
                {| disk := disk0; log_entries := entries |} f) as Hstep.
  destruct (process_file o dry_run show_name show_info
              {| disk := disk0; log_entries := entries |} f) as [[disk1 entries1] out].
  simpl in *.
  eapply touches_only_trans.
  - eapply touches_only_mono; [|exact Hstep].
    intros q ->%list_elem_of_singleton. apply list_elem_of_here.
  - eapply touches_only_mono; [|apply IH].
    intros q Hq. by apply list_elem_of_further.
Qed.

Lemma touches_only_or_refl (extra : Path) (allowed : list Path) (d : gset Path) :
  touches_only_or extra allowed d d.
Proof. split; intros q H1 H2; done. Qed.

Lemma touches_only_or_trans (extra : Path) (allowed : list Path) (d1 d2 d3 : gset Path) :
  touches_only_or extra allowed d1 d2 ->
  touches_only_or extra allowed d2 d3 ->
  touches_only_or extra allowed d1 d3.
Proof.
  intros [Hgone12 Hnew12] [Hgone23 Hnew23]. split; intros q H1 H3.
  - destruct (decide (q ∈ d2)); [by apply Hgone23|by apply Hgone12].
  - destruct (decide (q ∈ d2)); [by apply Hnew12|by apply Hnew23].
Qed.

Lemma touches_only_or_mono (extra : Path) (allowed allowed' : list Path)
    (d1 d2 : gset Path) :
  (forall q, q ∈ allowed -> q ∈ allowed') ->
  touches_only_or extra allowed d1 d2 -> touches_only_or extra allowed' d1 d2.
Proof.
  intros Hsub [Hgone Hnew]. split; intros q H1 H2.
  - by apply Hsub, Hgone.
  - destruct (Hnew q H1 H2) as [->|(f & Hf & Hparent)]; [by left|].
    right. exists f. split; [by apply Hsub|done].
Qed.

Lemma rename_show_files_on_disk_touches (o : Oracles) (timestamp : string)
    (log_file_path : Path) (show_name : string) (files : list Path)
    (dry_run : bool) (disk0 : gset Path) (log_file : option Json) :
  touches_only_or log_file_path files disk0
    (rename_show_files_on_disk o timestamp log_file_path show_name files dry_run
       disk0 log_file).1.
Proof.
  unfold rename_show_files_on_disk.
  destruct (rename_show_files_touches o show_name files dry_run disk0) as [Hgone Hnew].
  destruct (log_entries _); simpl; split; intros q H1 H2.
  - by apply Hgone.
  - right. by apply Hnew.
  - apply Hgone; [done|]. intros Hq. apply H2, elem_of_union. by right.
  - apply elem_of_union in H2 as [H2|H2].
    + left. by apply elem_of_singleton in H2.
    + right. by apply Hnew.
Qed.

Lemma main_loop_touches (o : Oracles) (now : string -> string) (log_file_path : Path)
    (show_files : list (string * list Path)) (dry_run : bool)
    (disk0 : gset Path) (log_file : option Json) :
  touches_only_or log_file_path (mjoin show_files.*2) disk0
    (foldl (fun state show =>
              rename_show_files_on_disk o (now show.1) log_file_path
                show.1 show.2 dry_run state.1 state.2)
       (disk0, log_file) show_files).1.
Proof.
  revert disk0 log_file.
  induction show_files as [|show show_files IH]; intros disk0 log_file;
    [apply touches_only_or_refl|].
  simpl.
  pose proof (rename_show_files_on_disk_touches o (now show.1) log_file_path
                show.1 show.2 dry_run disk0 log_file) as Hstep.
  destruct (rename_show_files_on_disk o (now show.1) log_file_path show.1 show.2
              dry_run disk0 log_file) as [disk1 log1].
  simpl in Hstep.
  eapply touches_only_or_trans.
  - eapply touches_only_or_mono; [|exact Hstep].
    intros q Hq. apply elem_of_app. by left.
  - eapply touches_only_or_mono; [|apply IH].
    intros q Hq. apply elem_of_app. by right.
Qed.

Lemma below_same_folder (p q q' : Path) : parent q = parent q' -> below p q = below p q'.
Proof. unfold below. by intros ->. Qed.

(** A whole run over plain video files touches nothing else.  Suppose that
    no found path with a video suffix is a folder with something in it:
    nothing on the disk, no other such path and not the log file lies
    below one.  Then a path that was on the disk and is gone afterwards
    is a found path with a video suffix; a path that is new afterwards is
    the log file or lies in the folder of such a path; and afterwards
    still nothing lies below a found path with a video suffix. *)
Theorem main_touches_only_videos (o : Oracles) (now : string -> string)
    (log_name : string) (root_exists root_is_dir : bool) (root_path : string)
    (found : list Path) (dry_run : bool) (disk0 : gset Path)
    (log_file : option Json) :
  (forall video q,
     video ∈ found -> is_video video = true ->
     q ∈ disk0 \/ (q ∈ found /\ is_video q = true) \/ q = (root_path, log_name) ->
     below video q = false) ->
  let after := (main o now log_name root_exists root_is_dir root_path found dry_run
                  disk0 log_file).1 in
  (forall q, q ∈ disk0 -> q ∉ after -> q ∈ found /\ is_video q = true)
  /\ (forall q, q ∉ disk0 -> q ∈ after ->
        q = (root_path, log_name)
        \/ exists video,
             video ∈ found /\ is_video video = true /\ parent q = parent video)
  /\ (forall video q,
        video ∈ found -> is_video video = true -> q ∈ after ->
        below video q = false).
Proof.
  intros Hplain after.
  assert (touches_only_or (root_path, log_name)
            (filter (fun file_path => is_video file_path = true) found) disk0 after)
    as [Hgone Hnew].
  { unfold after, main.
    destruct root_exists; [|apply touches_only_or_refl].
    destruct root_is_dir; [|apply touches_only_or_refl]. simpl.
    assert (touches_only_or (root_path, log_name)
              (filter (fun file_path => is_video file_path = true) found) disk0
              (foldl (fun state show =>
                        rename_show_files_on_disk o (now show.1) (root_path, log_name)
                          show.1 show.2 dry_run state.1 state.2)
                 (disk0, log_file) (group_files_by_show root_path found)).1) as Hrun.
    { eapply touches_only_or_mono; [|apply main_loop_touches].
      intros q (files & Hq & (show & -> & Hshow)%list_elem_of_fmap)%list_elem_of_join.
      destruct show as [show_name files]. simpl in *.
      apply group_files_by_show_char in Hshow as [_ ->].
      apply list_elem_of_filter in Hq as [[Hvideo _] Hfound].
      by apply list_elem_of_filter. }
    destruct (group_files_by_show root_path found); [apply touches_only_or_refl|done]. }
  split; [|split].
  - intros q H1 H2. specialize (Hgone q H1 H2).
    apply list_elem_of_filter in Hgone as [Hvideo Hfound]. done.
  - intros q H1 H2. destruct (Hnew q H1 H2) as [->|(f & Hf & Hparent)]; [by left|].
    right. exists f. apply list_elem_of_filter in Hf as [Hvideo Hfound]. done.
  - intros video q Hvideo Hisvideo Hq.
    destruct (decide (q ∈ disk0)) as [Hold|Hfresh].
    + apply Hplain; [done|done|by left].
    + destruct (Hnew q Hfresh Hq) as [->|(f & Hf & Hparent)].
      * apply Hplain; [done|done|]. right. by right.
      * apply list_elem_of_filter in Hf as [Hfvideo Hffound].
        rewrite (below_same_folder video q f Hparent).
        apply Hplain; [done|done|]. right. left. done.
Qed.

Lemma main_touches_only_videos_witness :
  SampleFiles.canonical = ("/tv", "rename_log_20240101_100000.json")
  \/ exists video,
       video ∈ [SampleFiles.original; ("/tv/Example Show", "notes.txt")]
       /\ is_video video = true /\ parent SampleFiles.canonical = parent video.
Proof.
  refine (proj1 (proj2 (main_touches_only_videos SampleFiles.non_anime
            (fun _ => "2024-01-01 10:00:00") "rename_log_20240101_100000.json"
            true true "/tv" [SampleFiles.original; ("/tv/Example Show", "notes.txt")]
            false {[ SampleFiles.original; ("/tv/Example Show", "notes.txt") ]} None _))
            SampleFiles.canonical _ _).
  - intros video q Hvideo Hisvideo Hq.
    assert (video = SampleFiles.original) as ->.
    { apply elem_of_cons in Hvideo as [->|Hvideo]; [done|].
      apply list_elem_of_singleton in Hvideo as ->. by vm_compute in Hisvideo. }
    destruct Hq as [Hq|[[Hq _]| ->]]; [| |reflexivity].
    + apply elem_of_union in Hq as [Hq|Hq]; apply elem_of_singleton in Hq as ->;
        reflexivity.
    + apply elem_of_cons in Hq as [->|Hq]; [reflexivity|].
      apply list_elem_of_singleton in Hq as ->. reflexivity.
  - apply (bool_decide_unpack _). vm_compute. exact I.
  - apply (bool_decide_unpack _). vm_compute. exact I.
Defined.

(** A run whose root path does not exist or is not a folder does nothing
    at all. *)
Example main_invalid_root :
  forall o now log_name root_path found dry_run disk0 log_file,
    main o now log_name false true root_path found dry_run disk0 log_file
    = (disk0, log_file)
    /\ main o now log_name true false root_path found dry_run disk0 log_file
       = (disk0, log_file).
Proof. done. Qed.

Example main_run :
  (main SampleFiles.non_anime (fun _ => "2024-01-01 10:00:00")
     "rename_log_20240101_100000.json" true true "/tv"
     [("/tv", "Example Show"); SampleFiles.original; ("/tv/Example Show", "notes.txt")]
     false
     {[ ("/tv", "Example Show"); SampleFiles.original; ("/tv/Example Show", "notes.txt") ]}
     None).1
  = {[ ("/tv", "Example Show"); SampleFiles.canonical; ("/tv/Example Show", "notes.txt");
       ("/tv", "rename_log_20240101_100000.json") ]}.
Proof. apply (bool_decide_unpack _). vm_compute. exact I. Qed.

(** ** Previews *)

Lemma process_file_log_from_empty (o : Oracles) (dry_run : bool) (show_name : string)
    (show_info : Show.Info) (st : State) (file_path : Path) :
  log_entries (process_file o dry_run show_name show_info st file_path).1
  = log_entries st
    ++ log_entries (process_file o dry_run show_name show_info
                      {| disk := disk st; log_entries := [] |} file_path).1.
Proof.
  unfold process_file. simpl.
  destruct (plan_file o show_name show_info file_path) as [pl|];
    [|by rewrite List.app_nil_r].
  destruct (resolve_collision (disk st) file_path (parts pl)) as [[n c]|];
    [|by rewrite List.app_nil_r].
  destruct (bool_decide _); [by rewrite List.app_nil_r|].
  destruct dry_run; [done|].
  unfold rename_step. by destruct (os_rename _ _ _).
Qed.

(** In a dry run every file is previewed against the disk as it was at
    the start: the log of the show is the log of its first file on that
    disk, followed by the log of the second on the same disk, and so on.
    A preview therefore does not see the names previewed for the files
    before it. *)
Theorem dry_run_previews_independent (o : Oracles) (show_name : string)
    (show_info : Show.Info) (files : list Path) (disk0 : gset Path) :
  get_show_info o show_name = Some show_info ->
  log_entries (rename_show_files o show_name files true disk0)
  = files ≫= (fun file_path =>
      log_entries (process_file o true show_name show_info
                     {| disk := disk0; log_entries := [] |} file_path).1).
Proof.
  intros Hinfo. unfold rename_show_files. rewrite Hinfo.
  assert (forall entries,
            log_entries
              (foldl (fun st file_path =>
                        (process_file o true show_name show_info st file_path).1)
                 {| disk := disk0; log_entries := entries |} files)
            = entries ++ (files ≫= (fun file_path =>
                log_entries (process_file o true show_name show_info
                               {| disk := disk0; log_entries := [] |} file_path).1)))
    as Hgen; [|by rewrite Hgen].
  induction files as [|f files IH]; intros entries; simpl.
  - by rewrite List.app_nil_r.
  - pose proof (process_file_dry_run_disk o show_name show_info
                  {| disk := disk0; log_entries := entries |} f) as Hdisk.
    pose proof (process_file_log_from_empty o true show_name show_info
                  {| disk := disk0; log_entries := entries |} f) as Hlog.
    destruct (process_file o true show_name show_info
                {| disk := disk0; log_entries := entries |} f) as [[disk1 entries1] out].
    simpl in *. subst disk1 entries1.
    by rewrite IH, <- List.app_assoc.
Qed.

Lemma dry_run_previews_independent_witness :
  new_name <$>
    log_entries
      (rename_show_files SampleFiles.non_anime "Example Show"
         [(Sample.folder, "a.1080p.mkv"); (Sample.folder, "b.1080p.mkv")] true
         {[ (Sample.folder, "a.1080p.mkv"); (Sample.folder, "b.1080p.mkv") ]})
  = ["Example.Show.S02EP005.The.Return.1080p.mkv";
     "Example.Show.S02EP005.The.Return.1080p.mkv"].
Proof.
  rewrite (dry_run_previews_independent SampleFiles.non_anime "Example Show"
             (Sample.show "Example Show" false)
             [(Sample.folder, "a.1080p.mkv"); (Sample.folder, "b.1080p.mkv")]
             {[ (Sample.folder, "a.1080p.mkv"); (Sample.folder, "b.1080p.mkv") ]}
             eq_refl).
  vm_compute. reflexivity.
Defined.

(** ** The substring test *)

Lemma is_prefix_spec (needle hay : string) :
  is_prefix needle hay = true <-> exists rest, hay = needle +:+ rest.
Proof.
  revert hay. induction needle as [|a n IH]; intros hay; simpl.
  - split; [intros _; by exists hay|done].
  - destruct hay as [|b h].
    + split; [done|]. by intros [rest Hrest].
    + rewrite andb_true_iff, Ascii.eqb_eq, IH. split.
      * intros [-> [rest ->]]. by exists rest.
      * intros [rest Hrest]. rewrite app_cons in Hrest. injection Hrest as -> ->.
        split; [done|]. by exists rest.
Qed.

Lemma contains_spec (needle hay : string) :
  contains needle hay = true <-> exists before rest, hay = before +:+ needle +:+ rest.
Proof.
  induction hay as [|b h IH]; simpl.
  - rewrite orb_false_r, is_prefix_spec. split.
    + intros [rest Hrest]. by exists "", rest.
    + intros (before & rest & Hhay). destruct before; [by exists rest|done].
  - rewrite orb_true_iff, is_prefix_spec, IH. split.
    + intros [[rest Hrest]|(before & rest & ->)].
      * by exists "", rest.
      * by exists (String b before), rest.
    + intros (before & rest & Hhay). destruct before as [|c before].
      * left. by exists rest.
      * right. rewrite app_cons in Hhay. injection Hhay as -> ->. by exists before, rest.
Qed.

(** ** Names in canonical form *)











(** ** Which number of the inference output is judged *)















